(** * v8-heapsnapshot: decoding a V8 heap snapshot into a node/edge graph

    A shallow embedding of [src/index.ts] and the properties of its
    validation, decoding and wiring passes.

    Conventions of the embedding.
    - A JavaScript value that the code inspects dynamically ([typeof],
      [Array.isArray], [Number.isInteger], property reads) is a [Val], a
      document as [JSON.parse] builds it: a tree, each object with its own
      properties in order and each key once. Numbers are the integers (the
      flat arrays of a snapshot hold integers) plus [NaN], which arithmetic
      on [undefined] produces.
    - After [Sanity.check] the decoders read the document at its declared
      TypeScript type [RawSnapshotData]: [number[]] is [list Z], [string[]]
      is [list string], and a read that may miss is an [option]
      ([None] is [undefined]).
    - An exception is [Throw]; console output is an explicit log of the
      calls made; what JavaScript decides by an implicit coercion is
      [Unmodelled].
    - Objects have identity: a node is referred to by its position in the
      node array, an edge by its position in the edge array. *)

From Stdlib Require Import ZArith String List Lia Bool Sorted.
From stdpp Require Import base option list gmap strings.

Local Open Scope Z_scope.
Local Open Scope string_scope.
Local Open Scope list_scope.
Local Set Warnings "-register-all".

(* ===================================================================== *)
(** ** JavaScript values and outcomes *)
(* ===================================================================== *)

Inductive Val : Type :=
| VUndef
| VNull
| VBool (b : bool)
| VNum (n : Z)
| VNaN
| VStr (s : string)
| VArr (elems : list Val)
| VObj (props : list (string * Val)).

(** A message: the text of a string or template literal as the source has
    it, and the values that its [${...}] holes interpolate, in order. *)
Definition message : Type := string * list Val.

Definition text (s : string) : message := (s, []).

(** The two kinds of exception the code can raise: [new Error(desc)] thrown by
    the code itself, and the engine's [TypeError] on a property read of
    [undefined] or [null] or on an object that has no primitive value. *)
Inductive exn : Type :=
| Error (desc : message)
| TypeError.

(** [Unmodelled] marks the executions that leave the embedded fragment: an
    implicit coercion between a number and a string or object, a comparison
    of two objects, the external text and stream readers, and a document
    whose unchecked leaves do not have their declared types. No theorem
    treats it as a success or as a failure of the code. *)
Inductive outcome (A : Type) : Type :=
| Ok (a : A)
| Throw (e : exn)
| Unmodelled.
Arguments Ok {A} a.
Arguments Throw {A} e.
Arguments Unmodelled {A}.

Definition obind {A B} (m : outcome A) (k : A -> outcome B) : outcome B :=
  match m with
  | Ok a => k a
  | Throw e => Throw e
  | Unmodelled => Unmodelled
  end.

Notation "'try' x <- m ;; k" := (obind m (fun x => k))
  (at level 10, x pattern, m at level 99, k at level 200).

(** [typeof x] *)
Definition typeof (x : Val) : string :=
  match x with
  | VUndef => "undefined"
  | VNull => "object"
  | VBool _ => "boolean"
  | VNum _ | VNaN => "number"
  | VStr _ => "string"
  | VArr _ | VObj _ => "object"
  end.

(** [Array.isArray(x)] *)
Definition isArray (x : Val) : bool :=
  match x with VArr _ => true | _ => false end.

(** [Number.isInteger(n)] *)
Definition isInteger (n : Val) : bool :=
  match n with VNum _ => true | _ => false end.

Fixpoint lookup_prop (k : string) (props : list (string * Val)) : Val :=
  match props with
  | [] => VUndef
  | (k', v) :: rest => if String.eqb k k' then v else lookup_prop k rest
  end.

(** [x.k] for the property names that the code reads, none of which is
    inherited from a prototype: a [TypeError] on [undefined] and [null], an
    own property of an object, the [length] of an array or string. *)
Definition get (x : Val) (k : string) : outcome Val :=
  match x with
  | VUndef | VNull => Throw TypeError
  | VObj props => Ok (lookup_prop k props)
  | VArr elems => Ok (if String.eqb k "length" then VNum (Z.of_nat (length elems)) else VUndef)
  | VStr s => Ok (if String.eqb k "length" then VNum (Z.of_nat (String.length s)) else VUndef)
  | VBool _ | VNum _ | VNaN => Ok VUndef
  end.

(** [a == b] where it is decided without a coercion and without comparing
    the identity of two objects, which a [Val] does not record. *)
Definition loose_eq (a b : Val) : option bool :=
  match a, b with
  | (VUndef | VNull), (VUndef | VNull) => Some true
  | (VUndef | VNull), _ | _, (VUndef | VNull) => Some false
  | VNum x, VNum y => Some (Z.eqb x y)
  | VNaN, (VNum _ | VNaN) | VNum _, VNaN => Some false
  | VBool x, VBool y => Some (Bool.eqb x y)
  | VStr x, VStr y => Some (String.eqb x y)
  | _, _ => None
  end.

(** [a !== b] as [assertLength] uses it: one side is always a number. *)
Definition strict_neq (a b : Val) : bool :=
  match a, b with
  | VNum x, VNum y => negb (Z.eqb x y)
  | _, _ => true
  end.

(** [x >= n] for a number literal [n] *)
Definition ge_num (x : Val) (n : Z) : option bool :=
  match x with
  | VNum z => Some (Z.leb n z)
  | VNaN | VUndef => Some false
  | VNull => Some (Z.leb n 0)
  | VBool b => Some (Z.leb n (if b then 1 else 0))
  | VStr _ | VArr _ | VObj _ => None
  end.

(** [a * x] for an integer [a] *)
Definition mul_num (a : Z) (x : Val) : option Val :=
  match x with
  | VNum z => Some (VNum (a * z))
  | VNaN | VUndef => Some VNaN
  | VNull => Some (VNum 0)
  | VBool b => Some (VNum (if b then a else 0))
  | VStr _ | VArr _ | VObj _ => None
  end.

(** [c * x] for a declared count [c], which [check] has asserted to be an
    integer. *)
Definition product (c x : Val) : option Val :=
  match c with VNum c => mul_num c x | _ => None end.

(** Whether the string conversion [`${x}`] raises a [TypeError]: an object
    whose own [toString] entry is a (non-callable) document value has no
    primitive value, and an array converts each of its elements. *)
Fixpoint tostring_throws (x : Val) : bool :=
  match x with
  | VObj props => existsb (fun kv => String.eqb (fst kv) "toString") props
  | VArr elems => existsb tostring_throws elems
  | _ => false
  end.

(* ===================================================================== *)
(** ** The console and the validation monad *)
(* ===================================================================== *)

(** The path of a descriptor entry, as the template literals build it. *)
Inductive path : Type :=
| PRoot (s : string)
| PIndex (p : path) (idx : nat)
| PField (p : path) (prop : string).

(** One entry per [console.warn] / [console.error] call, holding the values
    its message interpolates. *)
Inductive diagnostic : Type :=
| warn_expected (p : path) (proto : string) (data : Val)
| warn_not_array (p : path) (data : Val)
| warn_new_elements (p : path) (extra : nat)
| warn_new_element (idx : nat) (data : Val)
| warn_not_object (p : path) (data : Val)
| error_format_changed
| error_continuing.

Definition console := list diagnostic.

Definition M (A : Type) : Type := console -> outcome A * console.

Definition ret {A} (a : A) : M A := fun log => (Ok a, log).
Definition throw {A} (e : exn) : M A := fun log => (Throw e, log).
Definition lift {A} (m : outcome A) : M A := fun log => (m, log).
Definition emit (d : diagnostic) : M unit := fun log => (Ok tt, log ++ [d]).
Definition coerce {A} (m : option A) : M A :=
  fun log => (match m with Some a => Ok a | None => Unmodelled end, log).

Definition bind {A B} (m : M A) (k : A -> M B) : M B :=
  fun log =>
    match m log with
    | (Ok a, log') => k a log'
    | (Throw e, log') => (Throw e, log')
    | (Unmodelled, log') => (Unmodelled, log')
    end.

Notation "'do' x <- m ;; k" := (bind m (fun x => k))
  (at level 10, x pattern, m at level 99, k at level 200).
Notation "m ;;; k" := (bind m (fun _ => k))
  (at level 100, k at level 200, right associativity).

(* ===================================================================== *)
(** ** namespace Sanity *)
(* ===================================================================== *)

Module Sanity.

(** A template of the expected meta descriptor: [GenericMetaData<Optional<string>>]. *)
Inductive Proto : Type :=
| Optional (value : Proto)
| PStr (s : string)
| PArr (items : list Proto)
| PObj (props : list (string * Proto)).

Definition opt (x : Proto) : Proto := Optional x.

Definition nodeTypeTypesProto : Proto :=
  PArr (map PStr ["hidden"; "array"; "string"; "object"; "code"; "closure"; "regexp";
                  "number"; "native"; "synthetic"; "concatenated string"; "sliced string";
                  "symbol"; "bigint"]).

Definition metaDataProto : Proto :=
  PObj [
    ("node_fields", PArr [PStr "type"; PStr "name"; PStr "id"; PStr "self_size";
                          PStr "edge_count"; PStr "trace_node_id"; opt (PStr "detachedness")]);
    ("node_types", PArr [nodeTypeTypesProto; PStr "string"; PStr "number"; PStr "number";
                         PStr "number"; PStr "number"; opt (PStr "number")]);
    ("edge_fields", PArr [PStr "type"; PStr "name_or_index"; PStr "to_node"]);
    ("edge_types", PArr [PArr (map PStr ["context"; "element"; "property"; "internal";
                                         "hidden"; "shortcut"; "weak"]);
                         PStr "string_or_number"; PStr "node"]);
    ("trace_function_info_fields", PArr (map PStr ["function_id"; "name"; "script_name";
                                                   "script_id"; "line"; "column"]));
    ("trace_node_fields", PArr (map PStr ["id"; "function_info_index"; "count"; "size";
                                          "children"]));
    ("sample_fields", PArr (map PStr ["timestamp_us"; "last_assigned_id"]));
    ("location_fields", PArr (map PStr ["object_index"; "script_id"; "line"; "column"]))
  ].

Definition assertX (desc : message) (cond : bool) : M unit :=
  if cond then ret tt else throw (Error desc).

Definition assertObject (p : string) (x : Val) : M unit :=
  assertX ("${path} is not an object, but is ${typeof x}", [VStr p; VStr (typeof x)])
          (String.eqb (typeof x) "object").

Definition assertArray (p : string) (arr : Val) : M unit :=
  assertX ("${path} is not an array, but is '${typeof arr}'", [VStr p; VStr (typeof arr)])
          (isArray arr).

Definition assertInteger (p : string) (n : Val) : M unit :=
  assertX ("${path} is not an integer, but is '${typeof n}'", [VStr p; VStr (typeof n)])
          (isInteger n).

Definition assertLength (name : string) (len expectedLen : Val) : M unit :=
  if strict_neq len expectedLen
  then throw (Error ("But Expected ${expectedLen} ${name}, but got ${len}",
                     [expectedLen; VStr name; len]))
  else ret tt.

(** The [console.warn] of the scalar case; building its message converts
    [data] to a string. *)
Definition warn_scalar (p : path) (proto : string) (data : Val) : M unit :=
  if tostring_throws data then throw TypeError else emit (warn_expected p proto data).

(** [for (let idx = proto.length; idx < data.length; ++idx) console.warn(...)] *)
Fixpoint warn_extra (idx : nat) (extra : list Val) : M unit :=
  match extra with
  | [] => ret tt
  | d :: rest => emit (warn_new_element idx d) ;;; warn_extra (S idx) rest
  end.

Fixpoint checkMetaData (p : path) (data : Val) (proto : Proto) {struct proto} : M bool :=
  match proto with
  | Optional value =>
      match data with
      | VUndef => ret true
      | _ => checkMetaData p data value
      end
  | PStr s =>
      match data with
      | VStr d => if String.eqb s d then ret true
                  else warn_scalar p s data ;;; ret false
      | _ => warn_scalar p s data ;;; ret false
      end
  | PArr items =>
      match data with
      | VArr elems =>
          do ok <- (if (length items <? length elems)%nat
                    then emit (warn_new_elements p (length elems - length items)) ;;;
                         warn_extra (length items) (drop (length items) elems) ;;;
                         ret false
                    else ret true) ;;
          (fix each (items : list Proto) (idx : nat) (ok : bool) : M bool :=
             match items with
             | [] => ret ok
             | item :: rest =>
                 do r <- checkMetaData (PIndex p idx) (nth idx elems VUndef) item ;;
                 each rest (S idx) (r && ok)
             end) items 0%nat ok
      | _ => emit (warn_not_array p data) ;;; ret false
      end
  | PObj props =>
      if isArray data || negb (String.eqb (typeof data) "object")
      then emit (warn_not_object p data) ;;; ret false
      else
        (fix each (props : list (string * Proto)) (ok : bool) : M bool :=
           match props with
           | [] => ret ok
           | (prop, item) :: rest =>
               do v <- lift (get data prop) ;;
               do r <- checkMetaData (PField p prop) v item ;;
               each rest (r && ok)
           end) props true
  end.

(** [parseInfoFromSnapshot] as [check] runs it, on the unvalidated document. *)
Definition parseInfoFromSnapshot (data : Val) : outcome (Val * Val) :=
  try snapshot <- get data "snapshot" ;;
  try meta <- get snapshot "meta" ;;
  try node_fields <- get meta "node_fields" ;;
  try nodeFieldCount <- get node_fields "length" ;;
  try snapshot' <- get data "snapshot" ;;
  try meta' <- get snapshot' "meta" ;;
  try edge_fields <- get meta' "edge_fields" ;;
  try edgeFieldCount <- get edge_fields "length" ;;
  Ok (nodeFieldCount, edgeFieldCount).

(** The assertions that precede the drift check. *)
Definition check_shape (data : Val) : M Val :=
  assertObject "data" data ;;;
  do nodes <- lift (get data "nodes") ;;
  assertArray "data.nodes" nodes ;;;
  do edges <- lift (get data "edges") ;;
  assertArray "data.edges" edges ;;;
  do strings <- lift (get data "strings") ;;
  assertArray "data.strings" strings ;;;
  do trace_function_infos <- lift (get data "trace_function_infos") ;;
  assertArray "data.trace_function_infos" trace_function_infos ;;;
  do trace_tree <- lift (get data "trace_tree") ;;
  assertArray "data.trace_tree" trace_tree ;;;
  do samples <- lift (get data "samples") ;;
  assertArray "data.samples" samples ;;;
  do snapshot <- lift (get data "snapshot") ;;
  do node_count <- lift (get snapshot "node_count") ;;
  assertInteger "data.snapshot.node_count" node_count ;;;
  do edge_count <- lift (get snapshot "edge_count") ;;
  assertInteger "data.snapshot.edge_count" edge_count ;;;
  do trace_function_count <- lift (get snapshot "trace_function_count") ;;
  assertInteger "data.snapshot.trace_function_count" trace_function_count ;;;
  do meta <- lift (get snapshot "meta") ;;
  assertObject "data.snapshot.meta" meta ;;;
  do node_fields <- lift (get meta "node_fields") ;;
  do nf_len <- lift (get node_fields "length") ;;
  do node_types <- lift (get meta "node_types") ;;
  do nt_len <- lift (get node_types "length") ;;
  do same_n <- coerce (loose_eq nf_len nt_len) ;;
  assertX (text "data.snapshot.meta.node_fields must have same length as data.snapshot.meta.node_types") same_n ;;;
  do edge_fields <- lift (get meta "edge_fields") ;;
  do ef_len <- lift (get edge_fields "length") ;;
  do edge_types <- lift (get meta "edge_types") ;;
  do et_len <- lift (get edge_types "length") ;;
  do same_e <- coerce (loose_eq ef_len et_len) ;;
  assertX (text "data.snapshot.meta.edge_fields must have same length as data.snapshot.meta.edge_types") same_e ;;;
  do parseInfo <- lift (parseInfoFromSnapshot data) ;;
  (* a count that the message cannot render is one that [>=] has to coerce *)
  do enough <- coerce (ge_num (fst parseInfo) 6) ;;
  assertX ("expected at least 6 node fields, but got ${parseInfo.nodeFieldCount}",
           [fst parseInfo]) enough ;;;
  assertLength "edge fields" (snd parseInfo) (VNum 3) ;;;
  ret meta.

(** The drift check: warnings per deviation, then the two closing lines. *)
Definition check_drift (meta : Val) : M unit :=
  do ok <- checkMetaData (PRoot "data.snapshot.meta") meta metaDataProto ;;
  if ok then ret tt
  else emit error_format_changed ;;; emit error_continuing.

(** The element-count assertions that follow the drift check. *)
Definition check_counts (data meta : Val) : M unit :=
  do snapshot <- lift (get data "snapshot") ;;
  do nodes <- lift (get data "nodes") ;;
  do nodes_len <- lift (get nodes "length") ;;
  do node_count <- lift (get snapshot "node_count") ;;
  do node_fields <- lift (get meta "node_fields") ;;
  do nf_len <- lift (get node_fields "length") ;;
  do expected_n <- coerce (product node_count nf_len) ;;
  assertLength "node elements" nodes_len expected_n ;;;
  do edges <- lift (get data "edges") ;;
  do edges_len <- lift (get edges "length") ;;
  do edge_count <- lift (get snapshot "edge_count") ;;
  do edge_fields <- lift (get meta "edge_fields") ;;
  do ef_len <- lift (get edge_fields "length") ;;
  do expected_e <- coerce (product edge_count ef_len) ;;
  assertLength "edge elements" edges_len expected_e ;;;
  do infos <- lift (get data "trace_function_infos") ;;
  do infos_len <- lift (get infos "length") ;;
  do trace_function_count <- lift (get snapshot "trace_function_count") ;;
  do tf_fields <- lift (get meta "trace_function_info_fields") ;;
  do tf_len <- lift (get tf_fields "length") ;;
  do expected_t <- coerce (product trace_function_count tf_len) ;;
  assertLength "trace function elements" infos_len expected_t.

Definition check (data : Val) : M unit :=
  do meta <- check_shape data ;;
  check_drift meta ;;;
  check_counts data meta.

End Sanity.

(* ===================================================================== *)
(** ** The document at its declared type *)
(* ===================================================================== *)

(** The part of [MetaData] the decoders read: the two field lists (for their
    lengths) and the enumerations [node_types[0]] and [edge_types[0]]. *)
Record MetaData : Type := {
  node_fields : list string;
  node_types_0 : list string;
  edge_fields : list string;
  edge_types_0 : list string
}.

Record RawSnapshotData : Type := {
  meta : MetaData;
  node_count : Z;
  nodes : list Z;
  edges : list Z;
  strings : list string
}.

Definition hasDetachedness (data : RawSnapshotData) : bool :=
  (7 <=? Z.of_nat (length (node_fields (meta data))))%Z.

Record ParseInfo : Type := {
  nodeFieldCount : Z;
  edgeFieldCount : Z
}.

Definition parseInfoFromSnapshot (data : RawSnapshotData) : ParseInfo :=
  {| nodeFieldCount := Z.of_nat (length (node_fields (meta data)));
     edgeFieldCount := Z.of_nat (length (edge_fields (meta data))) |}.

(** [arr[i]] for a number-or-undefined [i]: a miss is [undefined]. *)
Definition at_index {A} (arr : list A) (i : option Z) : option A :=
  match i with
  | Some z => if (z <? 0)%Z then None else arr !! Z.to_nat z
  | None => None
  end.

(** The cast [<RawSnapshotData>arg1] where the document has the declared
    leaf types. *)
Definition as_number (x : Val) : option Z :=
  match x with VNum z => Some z | _ => None end.

Definition as_string (x : Val) : option string :=
  match x with VStr s => Some s | _ => None end.

Definition as_array {A} (f : Val -> option A) (x : Val) : option (list A) :=
  match x with VArr elems => mapM f elems | _ => None end.

Definition field (x : Val) (k : string) : Val :=
  match x with VObj props => lookup_prop k props | _ => VUndef end.

Definition as_MetaData (x : Val) : option MetaData :=
  nf ← as_array as_string (field x "node_fields");
  nt ← as_array as_string (nth 0 (default [] (as_array Some (field x "node_types"))) VUndef);
  ef ← as_array as_string (field x "edge_fields");
  et ← as_array as_string (nth 0 (default [] (as_array Some (field x "edge_types"))) VUndef);
  Some {| node_fields := nf; node_types_0 := nt; edge_fields := ef; edge_types_0 := et |}.

Definition as_RawSnapshotData (x : Val) : option RawSnapshotData :=
  m ← as_MetaData (field (field x "snapshot") "meta");
  c ← as_number (field (field x "snapshot") "node_count");
  ns ← as_array as_number (field x "nodes");
  es ← as_array as_number (field x "edges");
  ss ← as_array as_string (field x "strings");
  Some {| meta := m; node_count := c; nodes := ns; edges := es; strings := ss |}.

(* ===================================================================== *)
(** ** Nodes, edges and the node decoder *)
(* ===================================================================== *)

(** An edge name: [string | number], or [undefined] from a missed read. *)
Inductive Name : Type :=
| NameNum (i : Z)
| NameStr (s : string)
| NameUndef.

(** A node object. [out_edges] and [in_edges] hold references to edge
    objects, that is positions in the edge array under construction. *)
Record NodeImpl : Type := {
  n_type : option string;
  n_name : option string;
  n_id : option Z;
  n_self_size : option Z;
  n_edge_count : option Z;
  n_trace_node_id : option Z;
  n_detached : option bool;
  out_edges : list nat;
  in_edges : list nat
}.

(** An edge object; [e_from] and [e_to] refer to node objects by position. *)
Record EdgeImpl : Type := {
  e_type : option string;
  e_name : Name;
  e_from : nat;
  e_to : nat
}.

Definition access {T} (arr : list Z) (idx baseIdx length : Z) (f : option Z -> T) : option T :=
  if (idx - baseIdx <? length)%Z then Some (f (at_index arr (Some idx))) else None.

(** [num => num == 1] *)
Definition is_one (num : option Z) : bool :=
  match num with Some z => Z.eqb z 1 | None => false end.

(** The body of the loop of [parseNodes]. *)
Definition parseNode (data : RawSnapshotData) (nodeFieldCount : Z) (nodeIndex : Z) : NodeImpl :=
  let baseIndex := (nodeIndex * nodeFieldCount)%Z in
  let dataIndex := baseIndex in
  {| n_type := at_index (node_types_0 (meta data)) (at_index (nodes data) (Some dataIndex));
     n_name := at_index (strings data) (at_index (nodes data) (Some (dataIndex + 1)%Z));
     n_id := at_index (nodes data) (Some (dataIndex + 2)%Z);
     n_self_size := at_index (nodes data) (Some (dataIndex + 3)%Z);
     n_edge_count := at_index (nodes data) (Some (dataIndex + 4)%Z);
     n_trace_node_id := at_index (nodes data) (Some (dataIndex + 5)%Z);
     n_detached := access (nodes data) (dataIndex + 6)%Z baseIndex nodeFieldCount is_one;
     out_edges := [];
     in_edges := [] |}.

(** [for (nodeIndex = 0; nodeIndex < node_count; ++nodeIndex) result.push(node)] *)
Fixpoint parseNodes_loop (data : RawSnapshotData) (nodeFieldCount : Z)
    (iterations : nat) (nodeIndex : Z) (result : list NodeImpl) : list NodeImpl :=
  match iterations with
  | O => result
  | S rest =>
      parseNodes_loop data nodeFieldCount rest (nodeIndex + 1)%Z
        (result ++ [parseNode data nodeFieldCount nodeIndex])
  end.

Definition parseNodes (data : RawSnapshotData) (parseInfo : ParseInfo) : list NodeImpl :=
  parseNodes_loop data (nodeFieldCount parseInfo) (Z.to_nat (node_count data)) 0%Z [].

(* ===================================================================== *)
(** ** The edge decoder and the wiring *)
(* ===================================================================== *)

(** The local function [name_or_index] of [parseAndWireEdges]. *)
Definition name_or_index (strings : list string) (type : option string) (i : option Z)
    : outcome Name :=
  if bool_decide (type = Some "element") || bool_decide (type = Some "hidden")
  then Ok (match i with Some z => NameNum z | None => NameUndef end)
  else
    if match i with Some z => (Z.of_nat (length strings) <=? z)%Z | None => false end
    then Throw (Error (text "Invalid string index!"))
    else Ok (match at_index strings i with Some s => NameStr s | None => NameUndef end).

(** [x / nodeFieldCount] as an array index: an exact quotient, otherwise a
    value that is no index of any array. *)
Definition quotient (x : option Z) (nodeFieldCount : Z) : option Z :=
  match x with
  | Some z =>
      if Z.eqb nodeFieldCount 0 then None
      else if Z.eqb (z mod nodeFieldCount) 0 then Some (z / nodeFieldCount)%Z
      else None
  | None => None
  end.

(** The mutable state of [parseAndWireEdges]: the node objects (their edge
    lists grow), the [result] array and the cursor [edgeIndex]. *)
Record Wiring : Type := {
  w_nodes : list NodeImpl;
  w_result : list EdgeImpl;
  w_edgeIndex : Z
}.

Definition push_out (edge : nat) (n : NodeImpl) : NodeImpl :=
  {| n_type := n_type n; n_name := n_name n; n_id := n_id n; n_self_size := n_self_size n;
     n_edge_count := n_edge_count n; n_trace_node_id := n_trace_node_id n;
     n_detached := n_detached n;
     out_edges := out_edges n ++ [edge];
     in_edges := in_edges n |}.

Definition push_in (edge : nat) (n : NodeImpl) : NodeImpl :=
  {| n_type := n_type n; n_name := n_name n; n_id := n_id n; n_self_size := n_self_size n;
     n_edge_count := n_edge_count n; n_trace_node_id := n_trace_node_id n;
     n_detached := n_detached n;
     out_edges := out_edges n;
     in_edges := in_edges n ++ [edge] |}.

(** One iteration of the inner loop, for the node at position [from_node].
    When the destination is [undefined] the statement
    [to_node.in_edges.push(edge)] raises a [TypeError]; the two pushes before
    it are lost with the local arrays. *)
Definition wire_edge (data : RawSnapshotData) (nodeFieldCount : Z) (from_node : nat)
    (w : Wiring) : outcome Wiring :=
  let edgeIndex := w_edgeIndex w in
  let type := at_index (edge_types_0 (meta data)) (at_index (edges data) (Some edgeIndex)) in
  try name <- name_or_index (strings data) type (at_index (edges data) (Some (edgeIndex + 1)%Z)) ;;
  let to_index := quotient (at_index (edges data) (Some (edgeIndex + 2)%Z)) nodeFieldCount in
  match to_index with
  | Some t =>
      if (t <? 0)%Z || (Z.of_nat (length (w_nodes w)) <=? t)%Z then Throw TypeError
      else
        let to_node := Z.to_nat t in
        let edge := length (w_result w) in
        Ok {| w_nodes := alter (push_in edge) to_node (alter (push_out edge) from_node (w_nodes w));
              w_result := w_result w ++ [{| e_type := type; e_name := name;
                                            e_from := from_node; e_to := to_node |}];
              w_edgeIndex := (edgeIndex + 3)%Z |}
  | None => Throw TypeError
  end.

(** [for (edgeCount = 0; edgeCount < from_node.edge_count; ++edgeCount)] *)
Fixpoint wire_node (data : RawSnapshotData) (nodeFieldCount : Z) (from_node : nat)
    (iterations : nat) (w : Wiring) : outcome Wiring :=
  match iterations with
  | O => Ok w
  | S rest =>
      try w' <- wire_edge data nodeFieldCount from_node w ;;
      wire_node data nodeFieldCount from_node rest w'
  end.

(** The number of iterations that [edgeCount < edge_count] allows. *)
Definition iterations_of (edge_count : option Z) : nat :=
  match edge_count with Some c => Z.to_nat c | None => O end.

(** [nodes.forEach((from_node) => ...)] over the positions still to visit. *)
Fixpoint wire_nodes (data : RawSnapshotData) (nodeFieldCount : Z) (from_nodes : list nat)
    (w : Wiring) : outcome Wiring :=
  match from_nodes with
  | [] => Ok w
  | from_node :: rest =>
      let edge_count := (w_nodes w !! from_node) ≫= n_edge_count in
      try w' <- wire_node data nodeFieldCount from_node (iterations_of edge_count) w ;;
      wire_nodes data nodeFieldCount rest w'
  end.

Definition parseAndWireEdges (data : RawSnapshotData) (nodes : list NodeImpl)
    (parseInfo : ParseInfo) : outcome Wiring :=
  wire_nodes data (nodeFieldCount parseInfo) (seq 0 (length nodes))
    {| w_nodes := nodes; w_result := []; w_edgeIndex := 0 |}.

(* ===================================================================== *)
(** ** class SnapshotImpl *)
(* ===================================================================== *)

(** [_global] and [_modules] are the cache fields; [None] is [undefined].
    A cached node or array is an object and therefore truthy, also the
    empty array. *)
Record SnapshotImpl : Type := {
  idToNodeMapping : gmap (option Z) nat;
  _global : option nat;
  _modules : option (list nat);
  s_nodes : list NodeImpl;
  s_edges : list EdgeImpl;
  s_hasDetachedness : bool
}.

(** [nodes.forEach(node => this.idToNodeMapping.set(node.id, node))], from
    position [pos] on. *)
Fixpoint set_ids (pos : nat) (nodes : list NodeImpl) (mapping : gmap (option Z) nat)
    : gmap (option Z) nat :=
  match nodes with
  | [] => mapping
  | node :: rest => set_ids (S pos) rest (<[n_id node := pos]> mapping)
  end.

Definition new_SnapshotImpl (nodes : list NodeImpl) (edges : list EdgeImpl)
    (hasDetachedness : bool) : SnapshotImpl :=
  {| idToNodeMapping := set_ids 0 nodes ∅;
     _global := None;
     _modules := None;
     s_nodes := nodes;
     s_edges := edges;
     s_hasDetachedness := hasDetachedness |}.

Definition findNodeById (this : SnapshotImpl) (id : Z) : option nat :=
  idToNodeMapping this !! Some id.

(** [nodes.find(pred)], as the position of the first node that satisfies
    [pred], counting from [pos]. *)
Fixpoint find_node (pred : NodeImpl -> bool) (pos : nat) (nodes : list NodeImpl) : option nat :=
  match nodes with
  | [] => None
  | node :: rest => if pred node then Some pos else find_node pred (S pos) rest
  end.

(** [arr.filter(pred)], as the positions of the elements kept, counting
    from [pos]. *)
Fixpoint positions {A} (pred : A -> bool) (pos : nat) (arr : list A) : list nat :=
  match arr with
  | [] => []
  | x :: rest =>
      if pred x then pos :: positions pred (S pos) rest
      else positions pred (S pos) rest
  end.

Definition is_global (node : NodeImpl) : bool :=
  bool_decide (n_name node = Some "global / ").

Definition is_module (node : NodeImpl) : bool :=
  bool_decide (n_name node = Some "Module") && bool_decide (n_type node = Some "object").

Definition set_global (this : SnapshotImpl) (g : option nat) : SnapshotImpl :=
  {| idToNodeMapping := idToNodeMapping this; _global := g; _modules := _modules this;
     s_nodes := s_nodes this; s_edges := s_edges this;
     s_hasDetachedness := s_hasDetachedness this |}.

Definition set_modules (this : SnapshotImpl) (m : option (list nat)) : SnapshotImpl :=
  {| idToNodeMapping := idToNodeMapping this; _global := _global this; _modules := m;
     s_nodes := s_nodes this; s_edges := s_edges this;
     s_hasDetachedness := s_hasDetachedness this |}.

(** [get global()]: the value or exception, and the object afterwards. *)
Definition global (this : SnapshotImpl) : outcome nat * SnapshotImpl :=
  match _global this with
  | Some g => (Ok g, this)
  | None =>
      let this' := set_global this (find_node is_global 0 (s_nodes this)) in
      match _global this' with
      | Some g => (Ok g, this')
      | None => (Throw (Error (text "Could not find global object!")), this')
      end
  end.

(** [get modules()] *)
Definition modules (this : SnapshotImpl) : list nat * SnapshotImpl :=
  match _modules this with
  | Some m => (m, this)
  | None =>
      let m := positions is_module 0 (s_nodes this) in
      (m, set_modules this (Some m))
  end.

(* ===================================================================== *)
(** ** parseSnapshot *)
(* ===================================================================== *)

(** The three accepted shapes of [arg1]: text and streams go through
    [JSON.parse] and [oboe], which are outside this development. *)
Definition normalize (arg1 : Val) : M Val :=
  match arg1 with
  | VStr _ => lift Unmodelled
  | _ => if String.eqb (typeof arg1) "object" then ret arg1
         else throw (Error (text "Illigal snapshot data!"))
  end.

Definition parseSnapshot (arg1 : Val) : M SnapshotImpl :=
  do data <- normalize arg1 ;;
  Sanity.check data ;;;
  do raw <- coerce (as_RawSnapshotData data) ;;
  let parseInfo := parseInfoFromSnapshot raw in
  let nodes := parseNodes raw parseInfo in
  do w <- lift (parseAndWireEdges raw nodes parseInfo) ;;
  ret (new_SnapshotImpl (w_nodes w) (w_result w) (hasDetachedness raw)).

(* ===================================================================== *)
(** ** Sample documents *)
(* ===================================================================== *)

Definition node_type_names : list string :=
  ["hidden"; "array"; "string"; "object"; "code"; "closure"; "regexp"; "number"; "native";
   "synthetic"; "concatenated string"; "sliced string"; "symbol"; "bigint"].

Definition edge_type_names : list string :=
  ["context"; "element"; "property"; "internal"; "hidden"; "shortcut"; "weak"].

(** A meta descriptor with the given node type names and node and edge field
    names; the other entries are the baseline ones. *)
Definition sample_meta_with (node_types node_fields edge_fields : list string) : Val :=
  VObj [
    ("node_fields", VArr (map VStr node_fields));
    ("node_types", VArr (VArr (map VStr node_types)
                         :: map VStr (take (length node_fields - 1)
                                        ["string"; "number"; "number"; "number"; "number"; "number"])));
    ("edge_fields", VArr (map VStr edge_fields));
    ("edge_types", VArr (take (length edge_fields)
                           [VArr (map VStr edge_type_names); VStr "string_or_number"; VStr "node"]));
    ("trace_function_info_fields",
       VArr (map VStr ["function_id"; "name"; "script_name"; "script_id"; "line"; "column"]));
    ("trace_node_fields",
       VArr (map VStr ["id"; "function_info_index"; "count"; "size"; "children"]));
    ("sample_fields", VArr (map VStr ["timestamp_us"; "last_assigned_id"]));
    ("location_fields", VArr (map VStr ["object_index"; "script_id"; "line"; "column"]))
  ].

Definition sample_meta (node_fields edge_fields : list string) : Val :=
  sample_meta_with node_type_names node_fields edge_fields.

Definition sample_doc (meta : Val) (node_count edge_count : Z) (nodes edges : list Z)
    (strings : list string) : Val :=
  VObj [
    ("snapshot", VObj [("meta", meta); ("node_count", VNum node_count);
                       ("edge_count", VNum edge_count); ("trace_function_count", VNum 0)]);
    ("nodes", VArr (map VNum nodes));
    ("edges", VArr (map VNum edges));
    ("strings", VArr (map VStr strings));
    ("trace_function_infos", VArr []);
    ("trace_tree", VArr []);
    ("samples", VArr [])
  ].

Definition six_fields : list string :=
  ["type"; "name"; "id"; "self_size"; "edge_count"; "trace_node_id"].
Definition seven_fields : list string := six_fields ++ ["detachedness"].
Definition three_fields : list string := ["type"; "name_or_index"; "to_node"].

(** Node A (object, "global / ", one edge) and node B (string, "hi"), with the
    property edge "x" from A to B. *)
Definition doc_two_nodes : Val :=
  sample_doc (sample_meta six_fields three_fields) 2 1
    [3; 0; 1; 10; 1; 0;   2; 1; 2; 20; 0; 0]
    [2; 2; 6]
    ["global / "; "hi"; "x"].

(** [doc_two_nodes] with the first node field renamed: a drifting descriptor. *)
Definition doc_drift : Val :=
  sample_doc (sample_meta ("kind" :: tail six_fields) three_fields) 2 1
    [3; 0; 1; 10; 1; 0;   2; 1; 2; 20; 0; 0]
    [2; 2; 6]
    ["global / "; "hi"; "x"].

(** [doc_drift] with one number missing from the node array. *)
Definition doc_drift_short : Val :=
  sample_doc (sample_meta ("kind" :: tail six_fields) three_fields) 2 1
    [3; 0; 1; 10; 1; 0;   2; 1; 2; 20; 0]
    [2; 2; 6]
    ["global / "; "hi"; "x"].

(** A descriptor whose first node field is an object with an own [toString]. *)
Definition meta_unprintable : Val :=
  VObj [("node_fields", VArr [VObj [("toString", VNum 1)]])].

(** One node with no edge, and one edge record that no node claims. *)
Definition doc_leftover : Val :=
  sample_doc (sample_meta six_fields three_fields) 1 1
    [3; 0; 1; 10; 0; 0]
    [2; 1; 0]
    ["global / "; "x"].

(** One node that declares two edges, and a single edge record. *)
Definition doc_overrun : Val :=
  sample_doc (sample_meta six_fields three_fields) 1 1
    [3; 0; 1; 10; 2; 0]
    [2; 1; 0]
    ["global / "; "x"].

(** [doc_two_nodes] with node type index 99 in the first record. *)
Definition doc_bad_type : Val :=
  sample_doc (sample_meta six_fields three_fields) 2 1
    [99; 0; 1; 10; 1; 0;   2; 1; 2; 20; 0; 0]
    [2; 2; 6]
    ["global / "; "hi"; "x"].

(** A document that declares a 15th node type and uses it in its first
    record. *)
Definition doc_new_type : Val :=
  sample_doc (sample_meta_with (node_type_names ++ ["wasm object"]) six_fields three_fields) 2 1
    [14; 0; 1; 10; 1; 0;   2; 1; 2; 20; 0; 0]
    [2; 2; 6]
    ["global / "; "hi"; "x"].

(** Node A declares -1 edges and node B declares 1: the one edge record is
    decoded for B. *)
Definition doc_negative_count : Val :=
  sample_doc (sample_meta six_fields three_fields) 2 1
    [3; 0; 1; 10; -1; 0;   2; 1; 2; 20; 1; 0]
    [2; 2; 0]
    ["global / "; "hi"; "x"].

(** [doc_two_nodes] whose property edge names the string index -1. *)
Definition doc_negative_name : Val :=
  sample_doc (sample_meta six_fields three_fields) 2 1
    [3; 0; 1; 10; 1; 0;   2; 1; 2; 20; 0; 0]
    [2; -1; 6]
    ["global / "; "hi"; "x"].

(** A document that declares two edge fields. *)
Definition doc_two_edge_fields : Val :=
  sample_doc (sample_meta six_fields ["type"; "to_node"]) 0 0 [] [] [].

(** Two nodes in the seven-field layout: stored detachedness 1 and 0. *)
Definition doc_seven_fields : Val :=
  sample_doc (sample_meta seven_fields three_fields) 2 0
    [3; 0; 1; 10; 0; 0; 1;   2; 1; 2; 20; 0; 0; 0]
    []
    ["global / "; "hi"].

(** [doc_negative_name] at its declared type. *)
Definition raw_negative_name : RawSnapshotData :=
  {| meta := {| node_fields := six_fields; node_types_0 := node_type_names;
                edge_fields := three_fields; edge_types_0 := edge_type_names |};
     node_count := 2;
     nodes := [3; 0; 1; 10; 1; 0;   2; 1; 2; 20; 0; 0]%Z;
     edges := [2; -1; 6]%Z;
     strings := ["global / "; "hi"; "x"] |}.

(** Three nodes; the first and the last share the id 7. *)
Definition nodes_shared_id : list NodeImpl :=
  map (fun id => {| n_type := Some "object"; n_name := Some "n"; n_id := Some id;
                    n_self_size := Some 0%Z; n_edge_count := Some 0%Z;
                    n_trace_node_id := Some 0%Z; n_detached := None;
                    out_edges := []; in_edges := [] |})
      [7; 8; 7]%Z.

(** The snapshot of these nodes: no node is named "global / " or "Module". *)
Definition snapshot_shared_id : SnapshotImpl :=
  new_SnapshotImpl nodes_shared_id [] false.

(** A snapshot whose second node is the global object. *)
Definition snapshot_with_global : SnapshotImpl :=
  new_SnapshotImpl
    (map (fun name => {| n_type := Some "object"; n_name := Some name; n_id := Some 1%Z;
                         n_self_size := Some 0%Z; n_edge_count := Some 0%Z;
                         n_trace_node_id := Some 0%Z; n_detached := None;
                         out_edges := []; in_edges := [] |})
         ["Module"; "global / "])
    [] false.

(* ===================================================================== *)
(** ** Statements used by the properties *)
(* ===================================================================== *)

(** [x.k] where the read cannot raise; [undefined] otherwise. *)
Definition prop (x : Val) (k : string) : Val :=
  match get x k with Ok v => v | _ => VUndef end.

(** The assertions of [Sanity.check] that precede the drift check. *)
Definition shape_assertions (d : Val) : Prop :=
  let snapshot := prop d "snapshot" in
  let meta := prop snapshot "meta" in
  typeof d = "object" /\
  isArray (prop d "nodes") = true /\
  isArray (prop d "edges") = true /\
  isArray (prop d "strings") = true /\
  isArray (prop d "trace_function_infos") = true /\
  isArray (prop d "trace_tree") = true /\
  isArray (prop d "samples") = true /\
  isInteger (prop snapshot "node_count") = true /\
  isInteger (prop snapshot "edge_count") = true /\
  isInteger (prop snapshot "trace_function_count") = true /\
  typeof meta = "object" /\
  loose_eq (prop (prop meta "node_fields") "length")
           (prop (prop meta "node_types") "length") = Some true /\
  loose_eq (prop (prop meta "edge_fields") "length")
           (prop (prop meta "edge_types") "length") = Some true /\
  ge_num (prop (prop meta "node_fields") "length") 6 = Some true /\
  prop (prop meta "edge_fields") "length" = VNum 3.

(** The element-count assertions of [Sanity.check], which follow it. *)
Definition count_assertions (d : Val) : Prop :=
  let snapshot := prop d "snapshot" in
  let meta := prop snapshot "meta" in
  product (prop snapshot "node_count") (prop (prop meta "node_fields") "length")
    = Some (prop (prop d "nodes") "length") /\
  product (prop snapshot "edge_count") (prop (prop meta "edge_fields") "length")
    = Some (prop (prop d "edges") "length") /\
  product (prop snapshot "trace_function_count")
          (prop (prop meta "trace_function_info_fields") "length")
    = Some (prop (prop d "trace_function_infos") "length").

(** The decoded fields of a node, without its edge lists. *)
Definition fields_of (n : NodeImpl) :=
  (n_type n, n_name n, n_id n, n_self_size n, n_edge_count n, n_trace_node_id n, n_detached n).

Definition from_is (k : nat) (e : EdgeImpl) : bool := Nat.eqb (e_from e) k.
Definition to_is (k : nat) (e : EdgeImpl) : bool := Nat.eqb (e_to e) k.

(** The node at position [k] once the edges [result] are wired: its lists
    hold the edges that leave it and that reach it, in decode order. *)
Definition wired_node (result : list EdgeImpl) (k : nat) (n : NodeImpl) : NodeImpl :=
  {| n_type := n_type n; n_name := n_name n; n_id := n_id n; n_self_size := n_self_size n;
     n_edge_count := n_edge_count n; n_trace_node_id := n_trace_node_id n;
     n_detached := n_detached n;
     out_edges := out_edges n ++ positions (from_is k) 0 result;
     in_edges := in_edges n ++ positions (to_is k) 0 result |}.

Definition wired (nodes : list NodeImpl) (result : list EdgeImpl) : list NodeImpl :=
  imap (wired_node result) nodes.

(** The edge that the record at cursor [3 * j] decodes to. *)
Definition decodes (data : RawSnapshotData) (nodeFieldCount : Z) (j : nat) (e : EdgeImpl) : Prop :=
  let edgeIndex := (3 * Z.of_nat j)%Z in
  e_type e = at_index (edge_types_0 (meta data)) (at_index (edges data) (Some edgeIndex)) /\
  name_or_index (strings data) (e_type e) (at_index (edges data) (Some (edgeIndex + 1)%Z))
    = Ok (e_name e) /\
  quotient (at_index (edges data) (Some (edgeIndex + 2)%Z)) nodeFieldCount
    = Some (Z.of_nat (e_to e)).

(** The origins of the edges in node-major order: position [k] repeated as
    often as the loop of node [k] runs. *)
Definition node_major (nodes : list NodeImpl) (from_nodes : list nat) : list nat :=
  flat_map (fun k => replicate (iterations_of ((nodes !! k) ≫= n_edge_count)) k) from_nodes.

(** The loop invariant of [parseAndWireEdges] over the nodes [nodes]. *)
Definition wiring_inv (data : RawSnapshotData) (nodeFieldCount : Z) (nodes : list NodeImpl)
    (w : Wiring) : Prop :=
  w_nodes w = wired nodes (w_result w) /\
  w_edgeIndex w = (3 * Z.of_nat (length (w_result w)))%Z /\
  Forall (fun e => (e_from e < length nodes)%nat /\ (e_to e < length nodes)%nat) (w_result w) /\
  (forall j e, w_result w !! j = Some e -> decodes data nodeFieldCount j e).

(** The number of edges the declared counts make the decoder produce: a
    negative or missing count gives no iteration. *)
Definition declared_iterations (nodes : list NodeImpl) : nat :=
  sum_list_with (fun n => iterations_of (n_edge_count n)) nodes.

(** The sum of the declared [edge_count] values. *)
Definition declared_sum (nodes : list NodeImpl) : Z :=
  foldr (fun n acc => (default 0 (n_edge_count n) + acc)%Z) 0%Z nodes.

Definition total_out (nodes : list NodeImpl) : nat :=
  sum_list_with (fun n => length (out_edges n)) nodes.

Definition total_in (nodes : list NodeImpl) : nat :=
  sum_list_with (fun n => length (in_edges n)) nodes.

(** Nodes as [parseNodes] creates them, with empty edge lists. *)
Definition fresh (nodes : list NodeImpl) : Prop :=
  Forall (fun n => out_edges n = [] /\ in_edges n = []) nodes.

(** A [M] computation that only appends to the console and never reads it. *)
Definition appends {A} (m : M A) : Prop :=
  forall log, m log = (fst (m []), log ++ snd (m [])).

(** No object inside [x] has an own [toString] entry. *)
Fixpoint printable (x : Val) : bool :=
  match x with
  | VObj props =>
      negb (existsb (fun kv => String.eqb (fst kv) "toString") props)
      && forallb (fun kv => printable (snd kv)) props
  | VArr elems => forallb printable elems
  | _ => true
  end.

(** A template without an object inside. *)
Fixpoint flat (proto : Sanity.Proto) : bool :=
  match proto with
  | Sanity.Optional value => flat value
  | Sanity.PStr _ => true
  | Sanity.PArr items => forallb flat items
  | Sanity.PObj _ => false
  end.

(** A [M] computation that leaves the console as it is. *)
Definition silent {A} (m : M A) : Prop :=
  forall log, snd (m log) = log.

(** A [M] computation that stays inside the embedded fragment. *)
Definition modelled {A} (m : M A) : Prop :=
  forall log, fst (m log) <> Unmodelled.

(** A [length] that is a number or missing: the case of every array and
    string, where the comparisons of [Sanity.check] coerce nothing. *)
Definition plain (x : Val) : Prop :=
  x = VUndef \/ exists z, x = VNum z.

Definition plain_lengths (d : Val) : Prop :=
  let meta := prop (prop d "snapshot") "meta" in
  plain (prop (prop meta "node_fields") "length") /\
  plain (prop (prop meta "node_types") "length") /\
  plain (prop (prop meta "edge_fields") "length") /\
  plain (prop (prop meta "edge_types") "length") /\
  plain (prop (prop meta "trace_function_info_fields") "length").

(** A [M] computation that completes normally. *)
Definition returns {A} (m : M A) : Prop :=
  forall log, exists a, fst (m log) = Ok a.

(* ===================================================================== *)
(** ** The earlier revision of the module *)
(* ===================================================================== *)

(** The earlier revision of [index.ts] has a fixed record layout and a fixed
    descriptor, and its validation only reports: a module-level flag lets it
    write its single line once. Its nodes have no [detached] field, which
    therefore reads as [undefined]; its [name_or_index] has the text of the
    current one. *)
Module Legacy.

Definition NodeFieldCount : Z := 6.
Definition EdgeFieldCount : Z := 3.

(** [metaData.node_types[0]] and [metaData.edge_types[0]] *)
Definition node_type_list : list string :=
  ["hidden"; "array"; "string"; "object"; "code"; "closure"; "regexp"; "number"; "native";
   "synthetic"; "concatenated string"; "sliced string"; "symbol"; "bigint"].

Definition edge_type_list : list string :=
  ["context"; "element"; "property"; "internal"; "hidden"; "shortcut"; "weak"].

Definition metaData : Val :=
  VObj [
    ("node_fields", VArr (map VStr ["type"; "name"; "id"; "self_size"; "edge_count";
                                    "trace_node_id"]));
    ("node_types", VArr (VArr (map VStr node_type_list)
                         :: map VStr ["string"; "number"; "number"; "number"; "number";
                                      "number"]));
    ("edge_fields", VArr (map VStr ["type"; "name_or_index"; "to_node"]));
    ("edge_types", VArr (VArr (map VStr edge_type_list)
                         :: map VStr ["string_or_number"; "node"]));
    ("trace_function_info_fields", VArr (map VStr ["function_id"; "name"; "script_name";
                                                   "script_id"; "line"; "column"]));
    ("trace_node_fields", VArr (map VStr ["id"; "function_info_index"; "count"; "size";
                                          "children"]));
    ("sample_fields", VArr (map VStr ["timestamp_us"; "last_assigned_id"]))
  ].

(** What the module keeps between calls: the flag
    [warnedAboutChangedHeapFormat] and the console. *)
Record World : Type := {
  warnedAboutChangedHeapFormat : bool;
  output : console
}.

Definition L (A : Type) : Type := World -> outcome A * World.

Definition read {A} (m : outcome A) : L A := fun w => (m, w).

Definition decided {A} (m : option A) : L A :=
  fun w => (match m with Some a => Ok a | None => Unmodelled end, w).

Definition andThen {A B} (m : L A) (k : A -> L B) : L B :=
  fun w =>
    match m w with
    | (Ok a, w') => k a w'
    | (Throw e, w') => (Throw e, w')
    | (Unmodelled, w') => (Unmodelled, w')
    end.

Notation "'run' x <- m ;; k" := (andThen m (fun x => k))
  (at level 10, x pattern, m at level 99, k at level 200).

(** [!x] is [negb (truthy x)] *)
Definition truthy (x : Val) : bool :=
  match x with
  | VUndef | VNull | VNaN => false
  | VBool b => b
  | VNum n => negb (Z.eqb n 0)
  | VStr s => negb (String.eqb s "")
  | VArr _ | VObj _ => true
  end.

(** The local function [check] of [sanityCheck]. *)
Definition check (ok : Val) : L unit :=
  fun w =>
    if negb (truthy ok) && negb (warnedAboutChangedHeapFormat w)
    then (Ok tt, {| warnedAboutChangedHeapFormat := true;
                    output := output w ++ [error_format_changed] |})
    else (Ok tt, w).

(** [c * x.length == arr.length] *)
Definition counts_match (c len arr_len : Val) : L bool :=
  run expected <- decided (product c len) ;;
  decided (loose_eq expected arr_len).

Section sanityCheck.

(** [JSON.stringify], which is outside this development; [None] is its
    result [undefined]. *)
Variable JSON_stringify : Val -> option string.

Definition sanityCheck (data : Val) : L unit :=
  run _ <- check data ;;
  run nodes <- read (get data "nodes") ;;
  run _ <- check (VBool (isArray nodes)) ;;
  run edges <- read (get data "edges") ;;
  run _ <- check (VBool (isArray edges)) ;;
  run strings <- read (get data "strings") ;;
  run _ <- check (VBool (isArray strings)) ;;
  run infos <- read (get data "trace_function_infos") ;;
  run _ <- check (VBool (isArray infos)) ;;
  run tree <- read (get data "trace_tree") ;;
  run _ <- check (VBool (isArray tree)) ;;
  run samples <- read (get data "samples") ;;
  run _ <- check (VBool (isArray samples)) ;;
  run ss <- read (get data "snapshot") ;;
  run node_count <- read (get ss "node_count") ;;
  run _ <- check (VBool (isInteger node_count)) ;;
  run edge_count <- read (get ss "edge_count") ;;
  run _ <- check (VBool (isInteger edge_count)) ;;
  run trace_function_count <- read (get ss "trace_function_count") ;;
  run _ <- check (VBool (isInteger trace_function_count)) ;;
  run meta <- read (get ss "meta") ;;
  run _ <- check meta ;;
  run _ <- check (VBool (bool_decide (JSON_stringify meta = JSON_stringify metaData))) ;;
  run node_fields <- read (get meta "node_fields") ;;
  run nf_len <- read (get node_fields "length") ;;
  run nf_ok <- decided (loose_eq nf_len (VNum NodeFieldCount)) ;;
  run _ <- check (VBool nf_ok) ;;
  run edge_fields <- read (get meta "edge_fields") ;;
  run ef_len <- read (get edge_fields "length") ;;
  run ef_ok <- decided (loose_eq ef_len (VNum EdgeFieldCount)) ;;
  run _ <- check (VBool ef_ok) ;;
  run nodes_len <- read (get nodes "length") ;;
  run n_ok <- counts_match node_count nf_len nodes_len ;;
  run _ <- check (VBool n_ok) ;;
  run edges_len <- read (get edges "length") ;;
  run e_ok <- counts_match edge_count ef_len edges_len ;;
  run _ <- check (VBool e_ok) ;;
  run tf_fields <- read (get meta "trace_function_info_fields") ;;
  run tf_len <- read (get tf_fields "length") ;;
  run infos_len <- read (get infos "length") ;;
  run t_ok <- counts_match trace_function_count tf_len infos_len ;;
  check (VBool t_ok).

End sanityCheck.

(** The body of the loop of [parseNodes]. *)
Definition parseNode (data : RawSnapshotData) (nodeIndex : Z) : NodeImpl :=
  let dataIndex := (nodeIndex * 6)%Z in
  {| n_type := at_index node_type_list (at_index (nodes data) (Some dataIndex));
     n_name := at_index (strings data) (at_index (nodes data) (Some (dataIndex + 1)%Z));
     n_id := at_index (nodes data) (Some (dataIndex + 2)%Z);
     n_self_size := at_index (nodes data) (Some (dataIndex + 3)%Z);
     n_edge_count := at_index (nodes data) (Some (dataIndex + 4)%Z);
     n_trace_node_id := at_index (nodes data) (Some (dataIndex + 5)%Z);
     n_detached := None;
     out_edges := [];
     in_edges := [] |}.

Fixpoint parseNodes_loop (data : RawSnapshotData) (iterations : nat) (nodeIndex : Z)
    (result : list NodeImpl) : list NodeImpl :=
  match iterations with
  | O => result
  | S rest => parseNodes_loop data rest (nodeIndex + 1)%Z (result ++ [parseNode data nodeIndex])
  end.

Definition parseNodes (data : RawSnapshotData) : list NodeImpl :=
  parseNodes_loop data (Z.to_nat (node_count data)) 0%Z [].

(** One iteration of the inner loop of [parseAndWireEdges]. *)
Definition wire_edge (data : RawSnapshotData) (from_node : nat) (w : Wiring)
    : outcome Wiring :=
  let edgeIndex := w_edgeIndex w in
  let type := at_index edge_type_list (at_index (edges data) (Some edgeIndex)) in
  try name <- name_or_index (strings data) type (at_index (edges data) (Some (edgeIndex + 1)%Z)) ;;
  let to_index := quotient (at_index (edges data) (Some (edgeIndex + 2)%Z)) NodeFieldCount in
  match to_index with
  | Some t =>
      if (t <? 0)%Z || (Z.of_nat (length (w_nodes w)) <=? t)%Z then Throw TypeError
      else
        let to_node := Z.to_nat t in
        let edge := length (w_result w) in
        Ok {| w_nodes := alter (push_in edge) to_node (alter (push_out edge) from_node (w_nodes w));
              w_result := w_result w ++ [{| e_type := type; e_name := name;
                                            e_from := from_node; e_to := to_node |}];
              w_edgeIndex := (edgeIndex + 3)%Z |}
  | None => Throw TypeError
  end.

Fixpoint wire_node (data : RawSnapshotData) (from_node : nat) (iterations : nat) (w : Wiring)
    : outcome Wiring :=
  match iterations with
  | O => Ok w
  | S rest =>
      try w' <- wire_edge data from_node w ;;
      wire_node data from_node rest w'
  end.

Fixpoint wire_nodes (data : RawSnapshotData) (from_nodes : list nat) (w : Wiring)
    : outcome Wiring :=
  match from_nodes with
  | [] => Ok w
  | from_node :: rest =>
      let edge_count := (w_nodes w !! from_node) ≫= n_edge_count in
      try w' <- wire_node data from_node (iterations_of edge_count) w ;;
      wire_nodes data rest w'
  end.

Definition parseAndWireEdges (data : RawSnapshotData) (nodes : list NodeImpl)
    : outcome Wiring :=
  wire_nodes data (seq 0 (length nodes))
    {| w_nodes := nodes; w_result := []; w_edgeIndex := 0 |}.

End Legacy.

(** One call of the earlier [sanityCheck] either leaves the flag and the
    console as they are, or sets the flag, which was clear, and writes its
    single line. *)
Definition latch_step (w w' : Legacy.World) : Prop :=
  w' = w \/
  (Legacy.warnedAboutChangedHeapFormat w = false /\
   w' = {| Legacy.warnedAboutChangedHeapFormat := true;
           Legacy.output := Legacy.output w ++ [error_format_changed] |}).

Definition latched {A} (m : Legacy.L A) : Prop :=
  forall w, latch_step w (snd (m w)) /\ forall desc, fst (m w) <> Throw (Error desc).

(** The descriptors that match a template, stated on its own: a scalar is
    that very string; an array is an array no longer than the template whose
    elements, [undefined] where it is shorter, match position by position; an
    object is a non-array object whose entries at the template's keys match,
    whatever other entries it has; an optional entry may be [undefined]. *)
Fixpoint conforms (data : Val) (proto : Sanity.Proto) {struct proto} : bool :=
  match proto with
  | Sanity.Optional value =>
      match data with
      | VUndef => true
      | _ => conforms data value
      end
  | Sanity.PStr s =>
      match data with
      | VStr d => String.eqb s d
      | _ => false
      end
  | Sanity.PArr items =>
      match data with
      | VArr elems =>
          (length elems <=? length items)%nat
          && (fix all (items : list Sanity.Proto) (idx : nat) : bool :=
                match items with
                | [] => true
                | item :: rest => conforms (nth idx elems VUndef) item && all rest (S idx)
                end) items 0%nat
      | _ => false
      end
  | Sanity.PObj props =>
      negb (isArray data) && String.eqb (typeof data) "object"
      && forallb (fun kp => conforms (field data (fst kp)) (snd kp)) props
  end.

(* ===================================================================== *)
(** * Properties *)
(* ===================================================================== *)

(** ** The validation monad *)

Lemma bind_Ok {A B} (m : M A) (k : A -> M B) log b log' :
  bind m k log = (Ok b, log') ->
  exists a log1, m log = (Ok a, log1) /\ k a log1 = (Ok b, log').
Proof.
  unfold bind. destruct (m log) as [[a| |] log1]; intros H; try discriminate.
  exists a, log1. split; [reflexivity | exact H].
Qed.

Lemma lift_Ok {A} (o : outcome A) log a log' :
  lift o log = (Ok a, log') -> o = Ok a /\ log' = log.
Proof. unfold lift. intros H. inversion H. split; reflexivity. Qed.

Lemma coerce_Ok {A} (o : option A) log a log' :
  coerce o log = (Ok a, log') -> o = Some a /\ log' = log.
Proof.
  unfold coerce. destruct o; intros H; inversion H. split; reflexivity.
Qed.

Lemma ret_Ok {A} (a b : A) log log' : ret a log = (Ok b, log') -> a = b /\ log' = log.
Proof. unfold ret. intros H. inversion H. split; reflexivity. Qed.

Lemma assertX_Ok desc cond log u log' :
  Sanity.assertX desc cond log = (Ok u, log') -> cond = true /\ log' = log.
Proof.
  unfold Sanity.assertX. destruct cond; intros H; inversion H. split; reflexivity.
Qed.

Lemma assertLength_Ok name len expected log u log' :
  Sanity.assertLength name len expected log = (Ok u, log') -> len = expected /\ log' = log.
Proof.
  unfold Sanity.assertLength, strict_neq.
  destruct len, expected; cbn; intros H; try discriminate.
  destruct (Z.eqb_spec n n0); cbn in H; inversion H. subst. split; reflexivity.
Qed.

Lemma get_prop x k v : get x k = Ok v -> prop x k = v.
Proof. unfold prop. intros ->. reflexivity. Qed.

(** Inversion of a successful run, one statement at a time. *)
Ltac step_ok H :=
  match type of H with
  | bind _ _ _ = (Ok _, _) =>
      let a := fresh "a" in let l := fresh "log" in
      let H1 := fresh "Hs" in let H2 := fresh "Hk" in
      apply bind_Ok in H; destruct H as (a & l & H1 & H2);
      step_ok H1; step_ok H2
  | lift _ _ = (Ok _, _) =>
      let E := fresh "Eg" in apply lift_Ok in H; destruct H as [E ->];
      try (apply get_prop in E)
  | coerce _ _ = (Ok _, _) =>
      let E := fresh "Ec" in apply coerce_Ok in H; destruct H as [E ->]
  | ret _ _ = (Ok _, _) =>
      let E := fresh "Er" in apply ret_Ok in H; destruct H as [E ->]
  | Sanity.assertX _ _ _ = (Ok _, _) =>
      let E := fresh "Ea" in apply assertX_Ok in H; destruct H as [E ->]
  | Sanity.assertObject _ _ _ = (Ok _, _) =>
      let E := fresh "Ea" in apply assertX_Ok in H; destruct H as [E ->];
      apply String.eqb_eq in E
  | Sanity.assertArray _ _ _ = (Ok _, _) =>
      let E := fresh "Ea" in apply assertX_Ok in H; destruct H as [E ->]
  | Sanity.assertInteger _ _ _ = (Ok _, _) =>
      let E := fresh "Ea" in apply assertX_Ok in H; destruct H as [E ->]
  | Sanity.assertLength _ _ _ _ = (Ok _, _) =>
      let E := fresh "El" in apply assertLength_Ok in H; destruct H as [E ->]
  | _ => idtac
  end.

Lemma parseInfoFromSnapshot_Ok d nf ef :
  Sanity.parseInfoFromSnapshot d = Ok (nf, ef) ->
  nf = prop (prop (prop (prop d "snapshot") "meta") "node_fields") "length" /\
  ef = prop (prop (prop (prop d "snapshot") "meta") "edge_fields") "length".
Proof.
  unfold Sanity.parseInfoFromSnapshot. intros E.
  repeat match goal with
  | E : obind (get ?x ?k) _ = Ok _ |- _ =>
      let G := fresh "G" in
      destruct (get x k) eqn:G; cbn [obind] in E; try discriminate;
      apply get_prop in G; subst
  end.
  inversion E. split; reflexivity.
Qed.

Lemma check_shape_Ok d log meta log' :
  Sanity.check_shape d log = (Ok meta, log') ->
  log' = log /\ meta = prop (prop d "snapshot") "meta" /\ shape_assertions d.
Proof.
  intros H. unfold Sanity.check_shape in H. step_ok H.
  match goal with
  | E : Sanity.parseInfoFromSnapshot d = Ok ?p |- _ =>
      destruct p as [nf ef]; apply parseInfoFromSnapshot_Ok in E; destruct E as [-> ->]
  end.
  cbn [fst snd] in *. subst. unfold shape_assertions.
  repeat split; assumption.
Qed.

Lemma check_counts_Ok d log u log' :
  Sanity.check_counts d (prop (prop d "snapshot") "meta") log = (Ok u, log') ->
  log' = log /\ count_assertions d.
Proof.
  intros H. unfold Sanity.check_counts in H. step_ok H.
  subst. unfold count_assertions, product.
  repeat split; assumption.
Qed.

Create HintDb console_db.

Lemma silent_ret {A} (a : A) : silent (ret a).
Proof. intros log. reflexivity. Qed.

Lemma silent_throw {A} e : silent (@throw A e).
Proof. intros log. reflexivity. Qed.

Lemma silent_lift {A} (o : outcome A) : silent (lift o).
Proof. intros log. reflexivity. Qed.

Lemma silent_coerce {A} (o : option A) : silent (coerce o).
Proof. intros log. reflexivity. Qed.

Lemma silent_bind {A B} (m : M A) (k : A -> M B) :
  silent m -> (forall a, silent (k a)) -> silent (bind m k).
Proof.
  intros Hm Hk log. unfold bind. specialize (Hm log).
  destruct (m log) as [[a| |] log1]; cbn in Hm; subst; [apply Hk | reflexivity..].
Qed.

Lemma silent_assertX desc cond : silent (Sanity.assertX desc cond).
Proof. unfold Sanity.assertX. destruct cond; [apply silent_ret | apply silent_throw]. Qed.

Lemma silent_assertLength name len expected : silent (Sanity.assertLength name len expected).
Proof.
  unfold Sanity.assertLength. destruct (strict_neq len expected);
    [apply silent_throw | apply silent_ret].
Qed.

#[local] Hint Resolve silent_ret silent_throw silent_lift silent_coerce silent_assertX
  silent_assertLength : console_db.

Ltac silent_steps :=
  repeat (first [ apply silent_bind; [ | intros ? ]
                | solve [ auto with console_db ]
                | apply silent_assertX ]).

Lemma silent_check_shape d : silent (Sanity.check_shape d).
Proof.
  unfold Sanity.check_shape, Sanity.assertObject, Sanity.assertArray, Sanity.assertInteger.
  silent_steps.
Qed.

Lemma silent_check_counts d meta : silent (Sanity.check_counts d meta).
Proof. unfold Sanity.check_counts. silent_steps. Qed.

(** Induction on templates, through the lists they nest. *)
Lemma Proto_induction (P : Sanity.Proto -> Prop) :
  (forall value, P value -> P (Sanity.Optional value)) ->
  (forall s, P (Sanity.PStr s)) ->
  (forall items, Forall P items -> P (Sanity.PArr items)) ->
  (forall props, Forall (fun kp => P (snd kp)) props -> P (Sanity.PObj props)) ->
  forall proto, P proto.
Proof.
  intros HO HS HA HP.
  fix IH 1. intros [value | s | items | props].
  - apply HO, IH.
  - apply HS.
  - apply HA. induction items as [| item rest IHrest]; constructor; [apply IH | exact IHrest].
  - apply HP. induction props as [| [k item] rest IHrest]; constructor; [apply IH | exact IHrest].
Qed.

Lemma appends_ret {A} (a : A) : appends (ret a).
Proof. intros log. cbn. by rewrite app_nil_r. Qed.

Lemma appends_throw {A} e : appends (@throw A e).
Proof. intros log. cbn. by rewrite app_nil_r. Qed.

Lemma appends_lift {A} (o : outcome A) : appends (lift o).
Proof. intros log. cbn. by rewrite app_nil_r. Qed.

Lemma appends_coerce {A} (o : option A) : appends (coerce o).
Proof. intros log. cbn. by rewrite app_nil_r. Qed.

Lemma appends_emit d : appends (emit d).
Proof. intros log. reflexivity. Qed.

Lemma appends_bind {A B} (m : M A) (k : A -> M B) :
  appends m -> (forall a, appends (k a)) -> appends (bind m k).
Proof.
  intros Hm Hk log. unfold bind. rewrite (Hm log).
  destruct (m []) as [[a| |] log1]; cbn; try reflexivity.
  rewrite (Hk a (log ++ log1)), (Hk a log1).
  destruct (k a []) as [r log2]; cbn. by rewrite app_assoc.
Qed.

Lemma appends_assertX desc cond : appends (Sanity.assertX desc cond).
Proof. unfold Sanity.assertX. destruct cond; [apply appends_ret | apply appends_throw]. Qed.

Lemma appends_assertLength name len expected : appends (Sanity.assertLength name len expected).
Proof.
  unfold Sanity.assertLength. destruct (strict_neq len expected);
    [apply appends_throw | apply appends_ret].
Qed.

#[local] Hint Resolve appends_ret appends_throw appends_lift appends_coerce appends_emit
  appends_assertX appends_assertLength : console_db.

Ltac appends_steps :=
  repeat (first [ apply appends_bind; [ | intros ? ]
                | solve [ auto with console_db ]
                | apply appends_assertX ]).

Lemma appends_warn_scalar p s data : appends (Sanity.warn_scalar p s data).
Proof. unfold Sanity.warn_scalar. destruct (tostring_throws data); auto with console_db. Qed.

Lemma appends_warn_extra idx extra : appends (Sanity.warn_extra idx extra).
Proof.
  revert idx. induction extra as [| d rest IH]; intros idx; cbn; [apply appends_ret |].
  apply appends_bind; [apply appends_emit | intros _; apply IH].
Qed.

#[local] Hint Resolve appends_warn_scalar appends_warn_extra : console_db.

Lemma appends_checkMetaData proto : forall p data, appends (Sanity.checkMetaData p data proto).
Proof.
  induction proto as [value IH | s | items IH | props IH] using Proto_induction; intros p data.
  - cbn. destruct data; auto with console_db.
  - cbn. destruct data; try (appends_steps; fail).
    destruct (String.eqb s s0); appends_steps.
  - cbn. destruct data; try (appends_steps; fail).
    apply appends_bind.
    { match goal with |- appends (if ?c then _ else _) => destruct c end; appends_steps. }
    generalize 0%nat. induction IH as [| item rest Hitem _ IHrest]; intros idx ok.
    + apply appends_ret.
    + apply appends_bind; [apply Hitem | intros r; apply IHrest].
  - cbn. destruct (isArray data || negb (String.eqb (typeof data) "object")).
    { appends_steps. }
    generalize true. induction IH as [| [k item] rest Hitem _ IHrest]; intros ok.
    + apply appends_ret.
    + apply appends_bind; [apply appends_lift | intros v].
      apply appends_bind; [apply Hitem | intros r; apply IHrest].
Qed.

Lemma appends_check d : appends (Sanity.check d).
Proof.
  unfold Sanity.check. apply appends_bind.
  - unfold Sanity.check_shape, Sanity.assertObject, Sanity.assertArray, Sanity.assertInteger.
    appends_steps.
  - intros meta. apply appends_bind.
    + unfold Sanity.check_drift. apply appends_bind; [apply appends_checkMetaData | intros ok].
      destruct ok; appends_steps.
    + intros _. unfold Sanity.check_counts. appends_steps.
Qed.

Lemma Val_induction (P : Val -> Prop) :
  P VUndef -> P VNull -> (forall b, P (VBool b)) -> (forall n, P (VNum n)) -> P VNaN ->
  (forall s, P (VStr s)) ->
  (forall elems, Forall P elems -> P (VArr elems)) ->
  (forall props, Forall (fun kv => P (snd kv)) props -> P (VObj props)) ->
  forall x, P x.
Proof.
  intros HU HN HB HZ HNaN HS HA HO.
  fix IH 1.
  intros [| | b | n | | s | elems | props];
    [exact HU | exact HN | apply HB | apply HZ | exact HNaN | apply HS | |].
  - apply HA. induction elems as [| x rest IHrest]; constructor; [apply IH | exact IHrest].
  - apply HO. induction props as [| [k x] rest IHrest]; constructor; [apply IH | exact IHrest].
Qed.

Lemma printable_tostring x : printable x = true -> tostring_throws x = false.
Proof.
  induction x as [| | b | n | | s | elems IH | props IH] using Val_induction;
    cbn; intros H; try reflexivity.
  - induction IH as [| x rest Hx _ IHrest]; cbn in *; [reflexivity |].
    apply andb_true_iff in H as [H1 H2]. rewrite (Hx H1), (IHrest H2). reflexivity.
  - apply andb_true_iff in H as [H _]. by apply negb_true_iff in H.
Qed.

Lemma printable_nth elems idx :
  forallb printable elems = true -> printable (nth idx elems VUndef) = true.
Proof.
  revert idx. induction elems as [| x rest IH]; intros [| idx] H; cbn in *; try reflexivity;
    apply andb_true_iff in H as [H1 H2]; [exact H1 | apply IH, H2].
Qed.

Lemma printable_lookup_prop k props :
  forallb (fun kv => printable (snd kv)) props = true -> printable (lookup_prop k props) = true.
Proof.
  induction props as [| [k' v] rest IH]; cbn; intros H; [reflexivity |].
  apply andb_true_iff in H as [H1 H2]. destruct (String.eqb k k'); [exact H1 | apply IH, H2].
Qed.

Lemma returns_ret {A} (a : A) : returns (ret a).
Proof. intros log. by exists a. Qed.

Lemma returns_emit d : returns (emit d).
Proof. intros log. by exists tt. Qed.

Lemma returns_bind {A B} (m : M A) (k : A -> M B) :
  returns m -> (forall a, returns (k a)) -> returns (bind m k).
Proof.
  intros Hm Hk log. unfold bind. destruct (Hm log) as [a Ha].
  destruct (m log) as [r log1]; cbn in Ha; subst. apply Hk.
Qed.

Lemma returns_warn_extra idx extra : returns (Sanity.warn_extra idx extra).
Proof.
  revert idx. induction extra as [| d rest IH]; intros idx; cbn; [apply returns_ret |].
  apply returns_bind; [apply returns_emit | intros _; apply IH].
Qed.

Lemma returns_warn_scalar p s data :
  printable data = true -> returns (Sanity.warn_scalar p s data).
Proof.
  intros H. unfold Sanity.warn_scalar. rewrite (printable_tostring _ H). apply returns_emit.
Qed.

#[local] Hint Resolve returns_ret returns_emit returns_warn_extra returns_warn_scalar
  : console_db.

Ltac returns_steps :=
  repeat (first [ apply returns_bind; [ | intros ? ] | solve [ auto with console_db ] ]).

(** The drift check of a template without nested objects completes on every
    value whose diagnostics can be rendered. *)
Lemma returns_checkMetaData_flat proto :
  flat proto = true ->
  forall p data, printable data = true -> returns (Sanity.checkMetaData p data proto).
Proof.
  induction proto as [value IH | s | items IH | props IH] using Proto_induction;
    intros Hflat p data Hdata; cbn in Hflat; try discriminate.
  - cbn. destruct data; auto with console_db.
  - cbn. destruct data; try (returns_steps; fail).
    destruct (String.eqb s s0); returns_steps.
  - cbn. destruct data; try (returns_steps; fail).
    apply returns_bind.
    { match goal with |- returns (if ?c then _ else _) => destruct c end; returns_steps. }
    cbn in Hdata. generalize 0%nat.
    induction IH as [| item rest Hitem _ IHrest]; intros idx ok.
    + apply returns_ret.
    + cbn in Hflat. apply andb_true_iff in Hflat as [Hf1 Hf2].
      apply returns_bind; [| intros r; apply IHrest, Hf2].
      apply Hitem; [exact Hf1 | apply printable_nth, Hdata].
Qed.

Lemma returns_checkMetaData_object props :
  forallb (fun kp => flat (snd kp)) props = true ->
  forall p ps, printable (VObj ps) = true ->
  returns (Sanity.checkMetaData p (VObj ps) (Sanity.PObj props)).
Proof.
  intros Hflat p ps Hps. cbn. generalize true.
  induction props as [| [k item] rest IH]; intros ok.
  - apply returns_ret.
  - cbn in Hflat. apply andb_true_iff in Hflat as [Hf1 Hf2].
    cbn in Hps. apply andb_true_iff in Hps as [Hp1 Hp2].
    unfold lift at 1. unfold bind at 1.
    apply returns_bind; [| intros r; apply IH, Hf2].
    apply returns_checkMetaData_flat; [exact Hf1 | apply printable_lookup_prop, Hp2].
Qed.

Lemma returns_check_drift meta :
  typeof meta = "object" -> meta <> VNull -> printable meta = true ->
  returns (Sanity.check_drift meta).
Proof.
  intros Hty Hnull Hp. unfold Sanity.check_drift.
  apply returns_bind; [| intros []; returns_steps].
  destruct meta; try discriminate; try congruence.
  - cbn. returns_steps.
  - apply returns_checkMetaData_object; [reflexivity | exact Hp].
Qed.

(** *** The drift check keeps no latch *)

(** C3 (as the code has it): a run of [Sanity.check] appends the same
    diagnostics whatever the console already holds, so nothing is suppressed
    after a first report; the drift check of a descriptor object whose values
    can be rendered completes normally; and a descriptor that does not conform
    is reported, with the two closing lines, at every run. *)
Theorem drift_check_reports_every_time (d : Val) (log : console) :
  Sanity.check d log = (fst (Sanity.check d []), log ++ snd (Sanity.check d [])) /\
  (forall meta, typeof meta = "object" -> meta <> VNull -> printable meta = true ->
     exists ws, Sanity.check_drift meta log = (Ok tt, log ++ ws)) /\
  (forall meta ws,
     Sanity.checkMetaData (PRoot "data.snapshot.meta") meta Sanity.metaDataProto []
       = (Ok false, ws) ->
     Sanity.check_drift meta log
       = (Ok tt, log ++ ws ++ [error_format_changed; error_continuing])).
Proof.
  split; [apply appends_check |]. split.
  - intros meta Hty Hnull Hp.
    assert (Ha : appends (Sanity.check_drift meta)).
    { unfold Sanity.check_drift.
      apply appends_bind; [apply appends_checkMetaData | intros []; appends_steps]. }
    destruct (returns_check_drift meta Hty Hnull Hp []) as [[] Hr].
    exists (snd (Sanity.check_drift meta [])). rewrite (Ha log), Hr. reflexivity.
  - intros meta ws Hc. unfold Sanity.check_drift, bind.
    rewrite (appends_checkMetaData _ _ _ log), Hc. cbn.
    unfold emit. by rewrite <- !app_assoc.
Qed.

Lemma drift_check_reports_every_time_witness :
  (exists ws, Sanity.check_drift (prop (prop doc_drift "snapshot") "meta") [error_continuing]
              = (Ok tt, [error_continuing] ++ ws)) /\
  Sanity.check_drift (prop (prop doc_drift "snapshot") "meta") [error_continuing]
  = (Ok tt, [error_continuing] ++
            [warn_expected (PIndex (PField (PRoot "data.snapshot.meta") "node_fields") 0)
               "type" (VStr "kind")] ++
            [error_format_changed; error_continuing]).
Proof.
  destruct (drift_check_reports_every_time doc_drift [error_continuing]) as (_ & H2 & H3).
  split.
  - apply H2; [reflexivity | discriminate | reflexivity].
  - apply H3. vm_compute. reflexivity.
Defined.

(** Two runs over the same drifting document report the drift twice. *)
Lemma drift_reported_twice :
  exists log1,
    Sanity.check doc_drift [] = (Ok tt, log1) /\
    Sanity.check doc_drift log1
    = (Ok tt, [warn_expected (PIndex (PField (PRoot "data.snapshot.meta") "node_fields") 0)
                 "type" (VStr "kind");
               error_format_changed; error_continuing;
               warn_expected (PIndex (PField (PRoot "data.snapshot.meta") "node_fields") 0)
                 "type" (VStr "kind");
               error_format_changed; error_continuing]).
Proof. eexists. split; vm_compute; reflexivity. Qed.

(** Rendering a diagnostic for an object with an own [toString] entry raises
    a [TypeError] inside the drift check. *)
Lemma drift_check_unprintable :
  Sanity.check_drift meta_unprintable [] = (Throw TypeError, []).
Proof. vm_compute. reflexivity. Qed.

(** *** Where the validation stays inside the embedded fragment *)

Lemma get_modelled x k : get x k <> Unmodelled.
Proof. destruct x; discriminate. Qed.

Lemma modelled_ret {A} (a : A) : modelled (ret a).
Proof. intros log. discriminate. Qed.

Lemma modelled_throw {A} e : modelled (@throw A e).
Proof. intros log. discriminate. Qed.

Lemma modelled_emit d : modelled (emit d).
Proof. intros log. discriminate. Qed.

Lemma modelled_get x k : modelled (lift (get x k)).
Proof. intros log. apply get_modelled. Qed.

Lemma modelled_assertX desc cond : modelled (Sanity.assertX desc cond).
Proof. unfold Sanity.assertX. destruct cond; [apply modelled_ret | apply modelled_throw]. Qed.

Lemma modelled_assertLength name len expected : modelled (Sanity.assertLength name len expected).
Proof.
  unfold Sanity.assertLength. destruct (strict_neq len expected);
    [apply modelled_throw | apply modelled_ret].
Qed.

Lemma modelled_bind_at {A B} (m : M A) (k : A -> M B) log :
  fst (m log) <> Unmodelled ->
  (forall a log1, m log = (Ok a, log1) -> fst (k a log1) <> Unmodelled) ->
  fst (bind m k log) <> Unmodelled.
Proof.
  intros Hm Hk. unfold bind. destruct (m log) as [[a| |] log1]; cbn in *;
    [by apply Hk | discriminate | congruence].
Qed.

Lemma modelled_bind {A B} (m : M A) (k : A -> M B) :
  modelled m -> (forall a, modelled (k a)) -> modelled (bind m k).
Proof. intros Hm Hk log. apply modelled_bind_at; [apply Hm | intros a log1 _; apply Hk]. Qed.

Lemma modelled_coerce {A} (o : option A) : o <> None -> modelled (coerce o).
Proof. intros H log. unfold coerce. destruct o; [discriminate | congruence]. Qed.

#[local] Hint Resolve modelled_ret modelled_throw modelled_emit modelled_get modelled_assertX
  modelled_assertLength : console_db.

Ltac modelled_steps :=
  repeat (first [ apply modelled_bind; [ | intros ? ]
                | solve [ auto with console_db ]
                | apply modelled_assertX ]).

Lemma modelled_warn_extra idx extra : modelled (Sanity.warn_extra idx extra).
Proof.
  revert idx. induction extra as [| d rest IH]; intros idx; cbn; [apply modelled_ret |].
  apply modelled_bind; [apply modelled_emit | intros _; apply IH].
Qed.

Lemma modelled_warn_scalar p s data : modelled (Sanity.warn_scalar p s data).
Proof. unfold Sanity.warn_scalar. destruct (tostring_throws data); auto with console_db. Qed.

#[local] Hint Resolve modelled_warn_extra modelled_warn_scalar : console_db.

Lemma modelled_checkMetaData proto :
  forall p data, modelled (Sanity.checkMetaData p data proto).
Proof.
  induction proto as [value IH | s | items IH | props IH] using Proto_induction; intros p data.
  - cbn. destruct data; auto with console_db.
  - cbn. destruct data; try (modelled_steps; fail).
    destruct (String.eqb s s0); modelled_steps.
  - cbn. destruct data; try (modelled_steps; fail).
    apply modelled_bind.
    { match goal with |- modelled (if ?c then _ else _) => destruct c end; modelled_steps. }
    generalize 0%nat. induction IH as [| item rest Hitem _ IHrest]; intros idx ok.
    + apply modelled_ret.
    + apply modelled_bind; [apply Hitem | intros r; apply IHrest].
  - cbn. destruct (isArray data || negb (String.eqb (typeof data) "object")).
    { modelled_steps. }
    generalize true. induction IH as [| [k item] rest Hitem _ IHrest]; intros ok.
    + apply modelled_ret.
    + apply modelled_bind; [apply modelled_get | intros v].
      apply modelled_bind; [apply Hitem | intros r; apply IHrest].
Qed.

Lemma modelled_check_drift meta : modelled (Sanity.check_drift meta).
Proof.
  unfold Sanity.check_drift.
  apply modelled_bind; [apply modelled_checkMetaData | intros []; modelled_steps].
Qed.

Lemma parseInfoFromSnapshot_modelled d : Sanity.parseInfoFromSnapshot d <> Unmodelled.
Proof.
  unfold Sanity.parseInfoFromSnapshot.
  repeat match goal with
  | |- obind (get ?x ?k) _ <> _ =>
      let G := fresh "G" in
      destruct (get x k) eqn:G; cbn [obind];
        [ | discriminate | exfalso; exact (get_modelled _ _ G) ]
  end.
  discriminate.
Qed.

Lemma plain_loose_eq a b : plain a -> plain b -> loose_eq a b <> None.
Proof. intros [-> | [x ->]] [-> | [y ->]]; discriminate. Qed.

Lemma plain_ge_num a n : plain a -> ge_num a n <> None.
Proof. intros [-> | [x ->]]; discriminate. Qed.

Lemma plain_product c a : isInteger c = true -> plain a -> product c a <> None.
Proof. destruct c; try discriminate. intros _ [-> | [x ->]]; discriminate. Qed.

Ltac modelled_at :=
  repeat (apply modelled_bind_at;
          [ first [ apply modelled_get | apply modelled_assertX | apply modelled_assertLength ]
          | let H := fresh "Hrun" in intros ? ? H; step_ok H; subst ]).

Lemma modelled_check_shape d : plain_lengths d -> modelled (Sanity.check_shape d).
Proof.
  intros (Hnf & Hnt & Hef & Het & _) log.
  unfold Sanity.check_shape, Sanity.assertObject, Sanity.assertArray, Sanity.assertInteger.
  modelled_at.
  apply modelled_bind_at; [apply modelled_coerce, plain_loose_eq; assumption |].
  intros ? ? Hrun; step_ok Hrun; subst.
  modelled_at.
  apply modelled_bind_at; [apply modelled_coerce, plain_loose_eq; assumption |].
  intros ? ? Hrun; step_ok Hrun; subst.
  modelled_at.
  apply modelled_bind_at; [apply parseInfoFromSnapshot_modelled |].
  intros [nf ef] ? Hrun. step_ok Hrun. subst.
  match goal with
  | E : Sanity.parseInfoFromSnapshot d = Ok _ |- _ =>
      apply parseInfoFromSnapshot_Ok in E; destruct E as [-> ->]
  end.
  apply modelled_bind_at; [apply modelled_coerce, plain_ge_num; assumption |].
  intros ? ? Hrun; step_ok Hrun; subst.
  modelled_at. apply modelled_ret.
Qed.

Lemma modelled_check_counts d :
  plain_lengths d -> shape_assertions d ->
  modelled (Sanity.check_counts d (prop (prop d "snapshot") "meta")).
Proof.
  intros (Hnf & _ & Hef & _ & Htf) Hshape log.
  destruct Hshape as (_ & _ & _ & _ & _ & _ & _ & Hn & He & Ht & _).
  unfold Sanity.check_counts.
  modelled_at.
  apply modelled_bind_at; [apply modelled_coerce, (plain_product _ _ Hn Hnf) |].
  intros ? ? Hrun; step_ok Hrun; subst.
  modelled_at.
  apply modelled_bind_at; [apply modelled_coerce, (plain_product _ _ He Hef) |].
  intros ? ? Hrun; step_ok Hrun; subst.
  modelled_at.
  apply modelled_bind_at; [apply modelled_coerce, (plain_product _ _ Ht Htf) |].
  intros ? ? Hrun; step_ok Hrun; subst.
  apply modelled_assertLength.
Qed.

Lemma check_Ok d log u log' :
  Sanity.check d log = (Ok u, log') -> shape_assertions d /\ count_assertions d.
Proof.
  unfold Sanity.check. intros H.
  apply bind_Ok in H as (meta & log1 & Hshape & H).
  apply check_shape_Ok in Hshape as (-> & -> & Hshape).
  apply bind_Ok in H as (u' & log2 & _ & H).
  apply check_counts_Ok in H as [_ H]. split; assumption.
Qed.

Lemma modelled_check d : plain_lengths d -> modelled (Sanity.check d).
Proof.
  intros Hplain log. unfold Sanity.check.
  apply modelled_bind_at; [by apply modelled_check_shape |].
  intros meta log1 Hshape. apply check_shape_Ok in Hshape as (-> & -> & Hshape).
  apply modelled_bind_at; [apply modelled_check_drift |].
  intros _ log2 _. by apply modelled_check_counts.
Qed.

Lemma check_shape_failure d log :
  ~ shape_assertions d -> snd (Sanity.check d log) = log.
Proof.
  intros Hno. unfold Sanity.check, bind.
  pose proof (silent_check_shape d log) as Hsilent.
  destruct (Sanity.check_shape d log) as [[meta| |] log1] eqn:E; cbn in Hsilent; subst;
    try reflexivity.
  apply check_shape_Ok in E as (_ & _ & Hshape). contradiction.
Qed.

Lemma parseSnapshot_Ok arg1 log s log' :
  parseSnapshot arg1 log = (Ok s, log') ->
  typeof arg1 = "object" /\
  Sanity.check arg1 log = (Ok tt, log') /\
  exists raw w,
    as_RawSnapshotData arg1 = Some raw /\
    parseAndWireEdges raw (parseNodes raw (parseInfoFromSnapshot raw))
      (parseInfoFromSnapshot raw) = Ok w /\
    s = new_SnapshotImpl (w_nodes w) (w_result w) (hasDetachedness raw).
Proof.
  unfold parseSnapshot. intros H.
  apply bind_Ok in H as (data & log1 & Hnorm & H).
  assert (typeof arg1 = "object" /\ data = arg1 /\ log1 = log) as (Hty & -> & ->).
  { unfold normalize in Hnorm. destruct arg1; cbn in Hnorm; inversion Hnorm; auto. }
  apply bind_Ok in H as ([] & log2 & Hcheck & H).
  apply bind_Ok in H as (raw & log3 & Hraw & H). apply coerce_Ok in Hraw as [Hraw ->].
  apply bind_Ok in H as (w & log4 & Hw & H). apply lift_Ok in Hw as [Hw ->].
  apply ret_Ok in H as [<- ->].
  split; [exact Hty |]. split; [exact Hcheck |]. by exists raw, w.
Qed.

Lemma parseSnapshot_check_Throw arg1 log e log' :
  typeof arg1 = "object" ->
  Sanity.check arg1 log = (Throw e, log') ->
  parseSnapshot arg1 log = (Throw e, log').
Proof.
  intros Hty Hcheck. unfold parseSnapshot, bind at 1.
  assert (normalize arg1 log = (Ok arg1, log)) as ->.
  { unfold normalize. destruct arg1; try discriminate; reflexivity. }
  unfold bind at 1. rewrite Hcheck. reflexivity.
Qed.

(** *** Structural validation *)

(** C7 (as the code has it): [Sanity.check] returns normally only when every
    hard assertion holds, and a snapshot is built only after it returned
    normally; where the declared lengths are those of arrays or strings, a
    failing assertion makes [Sanity.check], and with it [parseSnapshot],
    throw; a failure among the assertions that precede the drift check
    (object, arrays, integers, equal descriptor lengths, at least 6 node
    fields, exactly 3 edge fields) leaves the console untouched. The
    element-count assertions run after the drift check. *)
Theorem structural_validation_aborts (d : Val) (log : console) :
  (forall log', Sanity.check d log = (Ok tt, log') ->
     shape_assertions d /\ count_assertions d) /\
  (forall s log', parseSnapshot d log = (Ok s, log') ->
     Sanity.check d log = (Ok tt, log')) /\
  (plain_lengths d -> ~ (shape_assertions d /\ count_assertions d) ->
     exists e log', Sanity.check d log = (Throw e, log') /\
       (typeof d = "object" -> parseSnapshot d log = (Throw e, log'))) /\
  (~ shape_assertions d -> snd (Sanity.check d log) = log).
Proof.
  split; [intros log'; apply check_Ok |].
  split; [intros s log' H; by apply parseSnapshot_Ok in H as (_ & H & _) |].
  split.
  - intros Hplain Hno. pose proof (modelled_check d Hplain log) as Hm.
    destruct (Sanity.check d log) as [[[]| e |] log'] eqn:E; cbn in Hm.
    + apply check_Ok in E. contradiction.
    + exists e, log'. split; [reflexivity |]. intros Hty. by apply parseSnapshot_check_Throw.
    + congruence.
  - apply check_shape_failure.
Qed.

Lemma structural_validation_aborts_witness :
  exists e, parseSnapshot doc_two_edge_fields [] = (Throw e, []).
Proof.
  destruct (structural_validation_aborts doc_two_edge_fields []) as (_ & _ & H3 & H4).
  assert (Hno : ~ shape_assertions doc_two_edge_fields).
  { intros H. destruct H as (_&_&_&_&_&_&_&_&_&_&_&_&_&_&H). vm_compute in H. discriminate. }
  destruct H3 as (e & log' & Hcheck & Hparse).
  - repeat split; right; eexists; vm_compute; reflexivity.
  - intros [H _]. exact (Hno H).
  - exists e. specialize (H4 Hno). rewrite Hcheck in H4. cbn in H4. subst log'.
    apply Hparse. reflexivity.
Defined.

(** The node array of [doc_drift_short] has 11 elements where 2 * 6 are
    declared: the decode aborts after the drift diagnostics were written. *)
Lemma count_failure_after_drift_warning :
  prop (prop doc_drift_short "nodes") "length" = VNum 11 /\
  product (prop (prop doc_drift_short "snapshot") "node_count")
    (prop (prop (prop (prop doc_drift_short "snapshot") "meta") "node_fields") "length")
  = Some (VNum 12) /\
  parseSnapshot doc_drift_short []
  = (Throw (Error ("But Expected ${expectedLen} ${name}, but got ${len}",
                   [VNum 12; VStr "node elements"; VNum 11])),
     [warn_expected (PIndex (PField (PRoot "data.snapshot.meta") "node_fields") 0)
        "type" (VStr "kind");
      error_format_changed; error_continuing]).
Proof. repeat split; vm_compute; reflexivity. Qed.

(** ** The edge decoder and the wiring *)

Lemma positions_app {A} (pred : A -> bool) pos (l1 l2 : list A) :
  positions pred pos (l1 ++ l2)
  = positions pred pos l1 ++ positions pred (pos + length l1) l2.
Proof.
  revert pos. induction l1 as [| x l1 IH]; intros pos; cbn.
  - by rewrite Nat.add_0_r.
  - rewrite IH, Nat.add_succ_r. by destruct (pred x).
Qed.

Lemma wired_node_snoc result e k n :
  wired_node (result ++ [e]) k n
  = (if to_is k e then push_in (length result) else id)
      ((if from_is k e then push_out (length result) else id) (wired_node result k n)).
Proof.
  unfold wired_node, push_in, push_out. rewrite !positions_app. cbn.
  destruct (from_is k e), (to_is k e); cbn; rewrite ?app_nil_r, ?app_assoc; reflexivity.
Qed.

Lemma wired_node_snoc_lookup result e k (o : option NodeImpl) :
  wired_node (result ++ [e]) k <$> o
  = (if to_is k e then push_in (length result) else id)
      <$> ((if from_is k e then push_out (length result) else id)
             <$> (wired_node result k <$> o)).
Proof. destruct o as [n |]; cbn; [by rewrite wired_node_snoc | reflexivity]. Qed.

Lemma wired_snoc nodes result e :
  wired nodes (result ++ [e])
  = alter (push_in (length result)) (e_to e)
      (alter (push_out (length result)) (e_from e) (wired nodes result)).
Proof.
  apply list_eq. intros k. unfold wired.
  rewrite list_lookup_imap, wired_node_snoc_lookup.
  unfold from_is, to_is.
  destruct (Nat.eqb_spec (e_to e) k) as [-> | Hto].
  - rewrite list_lookup_alter_eq. f_equal.
    destruct (Nat.eqb_spec (e_from e) k) as [-> | Hfrom].
    + by rewrite list_lookup_alter_eq, list_lookup_imap.
    + by rewrite list_lookup_alter_ne, list_lookup_imap, option_fmap_id by done.
  - rewrite list_lookup_alter_ne, option_fmap_id by done.
    destruct (Nat.eqb_spec (e_from e) k) as [-> | Hfrom].
    + by rewrite list_lookup_alter_eq, list_lookup_imap.
    + by rewrite list_lookup_alter_ne, list_lookup_imap, option_fmap_id by done.
Qed.

Lemma wired_length nodes result : length (wired nodes result) = length nodes.
Proof. apply length_imap. Qed.

Lemma wired_edge_count nodes result k :
  (wired nodes result !! k) ≫= n_edge_count = (nodes !! k) ≫= n_edge_count.
Proof. unfold wired. rewrite list_lookup_imap. by destruct (nodes !! k). Qed.

Lemma wire_edge_inv data nfc nodes from_node w w' :
  wiring_inv data nfc nodes w ->
  (from_node < length nodes)%nat ->
  wire_edge data nfc from_node w = Ok w' ->
  wiring_inv data nfc nodes w' /\
  exists e, w_result w' = w_result w ++ [e] /\ e_from e = from_node.
Proof.
  intros (Hnodes & Hidx & Hrange & Hdec) Hfrom. unfold wire_edge.
  destruct (name_or_index _ _ _) as [name | |] eqn:Hname; cbn [obind]; try discriminate.
  destruct (quotient _ _) as [t |] eqn:Hq; try discriminate.
  destruct ((t <? 0)%Z || (Z.of_nat (length (w_nodes w)) <=? t)%Z) eqn:Hb; try discriminate.
  apply orb_false_iff in Hb as [Hlo Hhi].
  apply Z.ltb_ge in Hlo. apply Z.leb_gt in Hhi.
  rewrite Hnodes, wired_length in Hhi.
  intros Hw'. inversion Hw'; subst w'; clear Hw'. cbn.
  split; [| eexists; split; reflexivity].
  split; [| split; [| split]]; cbn.
  - rewrite wired_snoc. cbn. by rewrite <- Hnodes.
  - rewrite Hidx, length_app. cbn. lia.
  - apply Forall_app. split; [exact Hrange |]. constructor; [| constructor]. cbn. lia.
  - intros j e Hj. destruct (decide (j = length (w_result w))) as [-> | Hne].
    + rewrite lookup_app_r, Nat.sub_diag in Hj by lia. cbn in Hj. inversion Hj; subst e.
      unfold decodes. cbn [e_type e_name e_to]. rewrite <- Hidx, Hq, Z2Nat.id by lia. done.
    + assert (j < length (w_result w))%nat.
      { apply lookup_lt_Some in Hj. rewrite length_app in Hj. cbn in Hj. lia. }
      rewrite lookup_app_l in Hj by lia. by apply Hdec.
Qed.

Lemma wire_node_inv data nfc nodes from_node iterations : forall w w',
  wiring_inv data nfc nodes w ->
  (from_node < length nodes)%nat ->
  wire_node data nfc from_node iterations w = Ok w' ->
  wiring_inv data nfc nodes w' /\
  map e_from (w_result w') = map e_from (w_result w) ++ replicate iterations from_node.
Proof.
  induction iterations as [| it IH]; intros w w' Hinv Hfrom; cbn.
  - intros H. inversion H; subst. split; [exact Hinv | by rewrite app_nil_r].
  - destruct (wire_edge data nfc from_node w) as [w1 | |] eqn:Hstep; cbn [obind];
      try discriminate.
    intros Hrest.
    destruct (wire_edge_inv _ _ _ _ _ _ Hinv Hfrom Hstep) as (Hinv1 & e & Hres & He).
    destruct (IH _ _ Hinv1 Hfrom Hrest) as (Hinv' & Hmap).
    split; [exact Hinv' |].
    rewrite Hmap, Hres, map_app. cbn. rewrite He, <- app_assoc. reflexivity.
Qed.

Lemma wire_nodes_inv data nfc nodes from_nodes : forall w w',
  wiring_inv data nfc nodes w ->
  Forall (fun k => (k < length nodes)%nat) from_nodes ->
  wire_nodes data nfc from_nodes w = Ok w' ->
  wiring_inv data nfc nodes w' /\
  map e_from (w_result w') = map e_from (w_result w) ++ node_major nodes from_nodes.
Proof.
  induction from_nodes as [| k rest IH]; intros w w' Hinv Hks; cbn.
  - intros H. inversion H; subst. split; [exact Hinv | by rewrite app_nil_r].
  - apply Forall_cons in Hks as [Hk Hrest].
    destruct (wire_node _ _ _ _ _) as [w1 | |] eqn:Hnode; cbn [obind]; try discriminate.
    intros Hrun.
    destruct (wire_node_inv _ _ _ _ _ _ _ Hinv Hk Hnode) as (Hinv1 & Hmap1).
    destruct (IH _ _ Hinv1 Hrest Hrun) as (Hinv' & Hmap).
    split; [exact Hinv' |].
    rewrite Hmap, Hmap1, <- app_assoc. do 2 f_equal.
    destruct Hinv as (-> & _). by rewrite wired_edge_count.
Qed.

Lemma wired_nil nodes : fresh nodes -> wired nodes [] = nodes.
Proof.
  intros H. apply list_eq. intros k. unfold wired. rewrite list_lookup_imap.
  destruct (nodes !! k) as [n |] eqn:E; [| reflexivity]. cbn. f_equal.
  destruct (proj1 (Forall_lookup _ _) H k n E) as [Ho Hi].
  destruct n. cbn in *. subst. reflexivity.
Qed.

(** The functional description of [parseAndWireEdges] on fresh nodes. *)
Lemma parseAndWireEdges_Ok data nodes parseInfo w :
  fresh nodes ->
  parseAndWireEdges data nodes parseInfo = Ok w ->
  wiring_inv data (nodeFieldCount parseInfo) nodes w /\
  map e_from (w_result w) = node_major nodes (seq 0 (length nodes)).
Proof.
  intros Hfresh H. unfold parseAndWireEdges in H.
  apply wire_nodes_inv with (nodes := nodes) in H.
  - exact H.
  - split; [| split; [| split]]; cbn;
      [by rewrite wired_nil | reflexivity | apply Forall_nil_2 | intros j e Hj; discriminate].
  - apply Forall_forall. intros k Hk. apply elem_of_seq in Hk. lia.
Qed.

Lemma name_or_index_modelled strings type i : name_or_index strings type i <> Unmodelled.
Proof.
  unfold name_or_index.
  repeat match goal with |- (if ?c then _ else _) <> _ => destruct c end; discriminate.
Qed.

Lemma wire_edge_modelled data nfc from_node w : wire_edge data nfc from_node w <> Unmodelled.
Proof.
  unfold wire_edge.
  destruct (name_or_index _ _ _) eqn:E; cbn [obind];
    [| discriminate | exfalso; exact (name_or_index_modelled _ _ _ E)].
  destruct (quotient _ _); [| discriminate].
  match goal with |- (if ?c then _ else _) <> _ => destruct c end; discriminate.
Qed.

Lemma wire_node_modelled data nfc from_node iterations :
  forall w, wire_node data nfc from_node iterations w <> Unmodelled.
Proof.
  induction iterations as [| it IH]; intros w; cbn; [discriminate |].
  destruct (wire_edge _ _ _ _) eqn:E; cbn [obind];
    [apply IH | discriminate | exfalso; exact (wire_edge_modelled _ _ _ _ E)].
Qed.

Lemma wire_nodes_modelled data nfc from_nodes :
  forall w, wire_nodes data nfc from_nodes w <> Unmodelled.
Proof.
  induction from_nodes as [| k rest IH]; intros w; cbn; [discriminate |].
  destruct (wire_node _ _ _ _ _) eqn:E; cbn [obind];
    [apply IH | discriminate | exfalso; exact (wire_node_modelled _ _ _ _ _ E)].
Qed.

Lemma parseAndWireEdges_modelled data nodes parseInfo :
  parseAndWireEdges data nodes parseInfo <> Unmodelled.
Proof. apply wire_nodes_modelled. Qed.

(** ** The node decoder *)

Lemma parseNodes_loop_spec data nfc iterations : forall nodeIndex result,
  parseNodes_loop data nfc iterations nodeIndex result
  = result ++ map (fun k => parseNode data nfc (nodeIndex + Z.of_nat k)%Z) (seq 0 iterations).
Proof.
  induction iterations as [| it IH]; intros nodeIndex result; cbn.
  - by rewrite app_nil_r.
  - rewrite IH, <- app_assoc. cbn. rewrite Z.add_0_r. do 2 f_equal.
    rewrite <- seq_shift, map_map. apply map_ext. intros k. f_equal. lia.
Qed.

Lemma parseNodes_spec data parseInfo :
  parseNodes data parseInfo
  = map (fun k => parseNode data (nodeFieldCount parseInfo) (Z.of_nat k))
      (seq 0 (Z.to_nat (node_count data))).
Proof. unfold parseNodes. by rewrite parseNodes_loop_spec. Qed.

Lemma parseNodes_length data parseInfo :
  length (parseNodes data parseInfo) = Z.to_nat (node_count data).
Proof. by rewrite parseNodes_spec, length_map, length_seq. Qed.

Lemma parseNodes_lookup data parseInfo i node :
  parseNodes data parseInfo !! i = Some node <->
  (i < Z.to_nat (node_count data))%nat /\
  node = parseNode data (nodeFieldCount parseInfo) (Z.of_nat i).
Proof.
  rewrite parseNodes_spec, list_lookup_fmap. split.
  - destruct (seq 0 _ !! i) as [k |] eqn:E; cbn; [| discriminate].
    apply lookup_seq in E as [-> Hi]. intros H. inversion H. by split.
  - intros [Hi ->]. by rewrite lookup_seq_lt.
Qed.

Lemma parseNodes_fresh data parseInfo : fresh (parseNodes data parseInfo).
Proof.
  apply Forall_lookup. intros i node H. apply parseNodes_lookup in H as [_ ->]. by split.
Qed.

(** ** Positions and sums *)

Lemma elem_of_positions {A} (pred : A -> bool) (l : list A) : forall pos j,
  j ∈ positions pred pos l <->
  (pos <= j)%nat /\ exists x, l !! (j - pos)%nat = Some x /\ pred x = true.
Proof.
  induction l as [| y l IH]; intros pos j; cbn.
  - split; [intros H; by apply elem_of_nil in H | intros (_ & x & H & _); discriminate].
  - assert (Hrest : j ∈ positions pred (S pos) l <->
              (pos < j)%nat /\ exists x, l !! (j - S pos)%nat = Some x /\ pred x = true).
    { rewrite IH. reflexivity. }
    destruct (pred y) eqn:Hy; [rewrite elem_of_cons |]; rewrite Hrest; split.
    + intros [-> | (Hlt & x & Hx & Hp)].
      * split; [lia |]. exists y. by rewrite Nat.sub_diag.
      * split; [lia |]. exists x. split; [| exact Hp].
        replace (j - pos)%nat with (S (j - S pos)) by lia. exact Hx.
    + intros (Hle & x & Hx & Hp). destruct (decide (j = pos)) as [-> | Hne]; [by left |].
      right. split; [lia |]. exists x. split; [| exact Hp].
      replace (j - pos)%nat with (S (j - S pos)) in Hx by lia. exact Hx.
    + intros (Hlt & x & Hx & Hp). split; [lia |]. exists x. split; [| exact Hp].
      replace (j - pos)%nat with (S (j - S pos)) by lia. exact Hx.
    + intros (Hle & x & Hx & Hp). destruct (decide (j = pos)) as [-> | Hne].
      * rewrite Nat.sub_diag in Hx. cbn in Hx. congruence.
      * split; [lia |]. exists x. split; [| exact Hp].
        replace (j - pos)%nat with (S (j - S pos)) in Hx by lia. exact Hx.
Qed.

Lemma positions_sorted {A} (pred : A -> bool) (l : list A) : forall pos,
  StronglySorted lt (positions pred pos l).
Proof.
  induction l as [| y l IH]; intros pos; cbn; [constructor |].
  destruct (pred y); [| apply IH]. constructor; [apply IH |].
  apply Forall_forall. intros j Hj. apply elem_of_positions in Hj. lia.
Qed.

Lemma sorted_lt_NoDup (l : list nat) : StronglySorted lt l -> NoDup l.
Proof.
  induction 1 as [| x l _ IH Hall]; constructor; [| exact IH].
  intros Hx. pose proof (proj1 (Forall_forall _ _) Hall x Hx). lia.
Qed.

Lemma sum_list_with_alter {A} (g : A -> nat) (h : A -> A) (l : list A) : forall k x,
  l !! k = Some x ->
  (sum_list_with g (alter h k l) + g x = sum_list_with g l + g (h x))%nat.
Proof.
  induction l as [| y l IH]; intros [| k] x H; cbn in *; try discriminate.
  - inversion H; subst. lia.
  - specialize (IH k x H). lia.
Qed.

Lemma total_out_wired nodes result :
  Forall (fun e => (e_from e < length nodes)%nat /\ (e_to e < length nodes)%nat) result ->
  total_out (wired nodes result) = (total_out nodes + length result)%nat.
Proof.
  induction result as [| e result IH] using rev_ind; intros Hall.
  - unfold wired, total_out. rewrite Nat.add_0_r.
    assert (imap (wired_node []) nodes = nodes) as ->; [| reflexivity].
    apply list_eq. intros k. rewrite list_lookup_imap.
    destruct (nodes !! k) as [[]|]; cbn; [| reflexivity].
    unfold wired_node. cbn. by rewrite !app_nil_r.
  - apply Forall_app in Hall as [Hall He]. apply Forall_cons in He as [[Hf Ht] _].
    specialize (IH Hall). rewrite wired_snoc, length_app. cbn. unfold total_out in *.
    destruct (lookup_lt_is_Some_2 (wired nodes result) (e_from e)) as [x Hx];
      [by rewrite wired_length |].
    pose proof (sum_list_with_alter (fun n => length (out_edges n))
                  (push_out (length result)) _ _ _ Hx) as H1.
    set (l1 := alter (push_out (length result)) (e_from e) (wired nodes result)) in *.
    destruct (lookup_lt_is_Some_2 l1 (e_to e)) as [y Hy];
      [unfold l1; by rewrite length_alter, wired_length |].
    pose proof (sum_list_with_alter (fun n => length (out_edges n))
                  (push_in (length result)) _ _ _ Hy) as H2.
    cbn in H1, H2. rewrite length_app in H1. cbn in H1. lia.
Qed.

Lemma total_in_wired nodes result :
  Forall (fun e => (e_from e < length nodes)%nat /\ (e_to e < length nodes)%nat) result ->
  total_in (wired nodes result) = (total_in nodes + length result)%nat.
Proof.
  induction result as [| e result IH] using rev_ind; intros Hall.
  - unfold wired, total_in. rewrite Nat.add_0_r.
    assert (imap (wired_node []) nodes = nodes) as ->; [| reflexivity].
    apply list_eq. intros k. rewrite list_lookup_imap.
    destruct (nodes !! k) as [[]|]; cbn; [| reflexivity].
    unfold wired_node. cbn. by rewrite !app_nil_r.
  - apply Forall_app in Hall as [Hall He]. apply Forall_cons in He as [[Hf Ht] _].
    specialize (IH Hall). rewrite wired_snoc, length_app. cbn. unfold total_in in *.
    destruct (lookup_lt_is_Some_2 (wired nodes result) (e_from e)) as [x Hx];
      [by rewrite wired_length |].
    pose proof (sum_list_with_alter (fun n => length (in_edges n))
                  (push_out (length result)) _ _ _ Hx) as H1.
    set (l1 := alter (push_out (length result)) (e_from e) (wired nodes result)) in *.
    destruct (lookup_lt_is_Some_2 l1 (e_to e)) as [y Hy];
      [unfold l1; by rewrite length_alter, wired_length |].
    pose proof (sum_list_with_alter (fun n => length (in_edges n))
                  (push_in (length result)) _ _ _ Hy) as H2.
    cbn in H1, H2. rewrite length_app in H2. cbn in H2. lia.
Qed.

Lemma fresh_totals nodes : fresh nodes -> total_out nodes = 0%nat /\ total_in nodes = 0%nat.
Proof.
  unfold total_out, total_in. induction 1 as [| n nodes [Ho Hi] _ [IHo IHi]]; cbn; [done |].
  rewrite Ho, Hi, IHo, IHi. done.
Qed.

Lemma node_major_length prefix nodes :
  length (node_major (prefix ++ nodes) (seq (length prefix) (length nodes)))
  = declared_iterations nodes.
Proof.
  revert prefix. induction nodes as [| n nodes IH]; intros prefix; cbn; [reflexivity |].
  unfold node_major, declared_iterations in *. cbn.
  rewrite length_app, length_replicate.
  rewrite lookup_app_r, Nat.sub_diag by lia. cbn. f_equal.
  specialize (IH (prefix ++ [n])). rewrite length_app, <- app_assoc in IH. cbn in IH.
  rewrite Nat.add_1_r in IH. exact IH.
Qed.

Lemma node_major_length_all nodes :
  length (node_major nodes (seq 0 (length nodes))) = declared_iterations nodes.
Proof. exact (node_major_length [] nodes). Qed.

Lemma sum_list_with_imap {A B} (f : B -> nat) (f' : A -> nat) (l : list A) :
  forall g : nat -> A -> B,
  (forall k x, f (g k x) = f' x) ->
  sum_list_with f (imap g l) = sum_list_with f' l.
Proof.
  induction l as [| x l IH]; intros g Hg; cbn; [reflexivity |].
  rewrite Hg. f_equal. apply IH. intros k y. apply Hg.
Qed.

Lemma declared_iterations_wired nodes result :
  declared_iterations (wired nodes result) = declared_iterations nodes.
Proof. apply sum_list_with_imap. reflexivity. Qed.

Lemma declared_sum_nonneg nodes :
  Forall (fun n => exists c, n_edge_count n = Some c /\ (0 <= c)%Z) nodes ->
  Z.of_nat (declared_iterations nodes) = declared_sum nodes.
Proof.
  unfold declared_iterations, declared_sum.
  induction 1 as [| n nodes (c & Hc & Hpos) _ IH]; cbn; [reflexivity |].
  rewrite Nat2Z.inj_add, IH, Hc. cbn. lia.
Qed.

(** ** The validated document at its declared type *)

Lemma as_array_Some {A} (f : Val -> option A) x l :
  as_array f x = Some l ->
  exists elems, x = VArr elems /\ length elems = length l.
Proof.
  destruct x; cbn; try discriminate. intros H. exists elems. split; [reflexivity |].
  by apply length_mapM in H.
Qed.

Lemma field_array_object {A} (f : Val -> option A) x k l :
  as_array f (field x k) = Some l -> exists props, x = VObj props.
Proof. destruct x; cbn; try discriminate. by eexists. Qed.

Lemma field_prop props k : field (VObj props) k = prop (VObj props) k.
Proof. reflexivity. Qed.

Ltac option_steps H :=
  repeat match type of H with
  | (?o ≫= _) = Some _ =>
      let E := fresh "E" in destruct o eqn:E; cbn [mbind option_bind] in H; [| discriminate]
  end.

Lemma as_MetaData_Some x m :
  as_MetaData x = Some m ->
  (exists props, x = VObj props) /\
  prop (prop x "node_fields") "length" = VNum (Z.of_nat (length (node_fields m))) /\
  prop (prop x "edge_fields") "length" = VNum (Z.of_nat (length (edge_fields m))).
Proof.
  unfold as_MetaData. intros H. option_steps H. inversion H; subst m; clear H. cbn.
  destruct (field_array_object _ _ _ _ E) as [props ->]. rewrite !field_prop in *.
  apply as_array_Some in E as (? & -> & <-).
  apply as_array_Some in E1 as (? & -> & <-).
  split; [by eexists | done].
Qed.

(** What the cast determines of the dynamic view of a document. *)
Lemma as_RawSnapshotData_Some d raw :
  as_RawSnapshotData d = Some raw ->
  let snapshot := prop d "snapshot" in
  let meta := prop snapshot "meta" in
  prop snapshot "node_count" = VNum (node_count raw) /\
  prop (prop d "nodes") "length" = VNum (Z.of_nat (length (nodes raw))) /\
  prop (prop d "edges") "length" = VNum (Z.of_nat (length (edges raw))) /\
  prop (prop meta "node_fields") "length"
    = VNum (nodeFieldCount (parseInfoFromSnapshot raw)) /\
  prop (prop meta "edge_fields") "length"
    = VNum (edgeFieldCount (parseInfoFromSnapshot raw)).
Proof.
  unfold as_RawSnapshotData. intros H. option_steps H.
  inversion H; subst raw; clear H. cbn [node_count nodes edges meta parseInfoFromSnapshot
    nodeFieldCount edgeFieldCount].
  destruct (field_array_object _ _ _ _ E1) as [dprops ->].
  apply as_MetaData_Some in E as ([mprops Hm] & Hnf & Hef).
  assert (exists sprops, field (VObj dprops) "snapshot" = VObj sprops) as [sprops Hs].
  { destruct (field (VObj dprops) "snapshot"); cbn in Hm; try discriminate. by eexists. }
  rewrite !field_prop in *. rewrite Hs in *. rewrite !field_prop in *.
  cbv zeta.
  apply as_array_Some in E1 as (? & -> & <-).
  apply as_array_Some in E2 as (? & -> & <-).
  destruct (prop (VObj sprops) "node_count"); try discriminate.
  cbn in E0. inversion E0; subst. done.
Qed.

Lemma validated_raw d log u log' raw :
  Sanity.check d log = (Ok u, log') ->
  as_RawSnapshotData d = Some raw ->
  (6 <= nodeFieldCount (parseInfoFromSnapshot raw))%Z /\
  edgeFieldCount (parseInfoFromSnapshot raw) = 3%Z /\
  Z.of_nat (length (nodes raw))
    = (node_count raw * nodeFieldCount (parseInfoFromSnapshot raw))%Z /\
  (0 <= node_count raw)%Z /\
  (exists edge_count, Z.of_nat (length (edges raw)) = edge_count * 3)%Z.
Proof.
  intros Hcheck Hraw. apply check_Ok in Hcheck as [Hshape Hcount].
  apply as_RawSnapshotData_Some in Hraw. cbv zeta in Hraw.
  destruct Hraw as (Hc & Hn & He & Hnf & Hef).
  destruct Hshape as (_&_&_&_&_&_&_&_& Hec &_&_&_&_& Hge & H3).
  destruct Hcount as (Hcn & Hce & _).
  set (nfc := nodeFieldCount (parseInfoFromSnapshot raw)) in *.
  set (efc := edgeFieldCount (parseInfoFromSnapshot raw)) in *.
  rewrite Hnf in Hge. rewrite Hef in H3. rewrite Hc, Hnf, Hn in Hcn.
  rewrite He, Hef in Hce.
  cbn in Hge, Hcn. injection Hge as Hge. apply Z.leb_le in Hge.
  injection H3 as H3. injection Hcn as Hcn.
  destruct (prop (prop d "snapshot") "edge_count") as [| | | c | | | |]; try discriminate.
  rewrite H3 in Hce. cbn in Hce. injection Hce as Hce.
  unfold nfc in *. cbn [parseInfoFromSnapshot nodeFieldCount] in *.
  split; [lia |]. split; [exact H3 |]. split; [lia |]. split; [nia | exists c; lia].
Qed.

Lemma node_major_wired nodes result from_nodes :
  node_major (wired nodes result) from_nodes = node_major nodes from_nodes.
Proof.
  unfold node_major. induction from_nodes as [| k rest IH]; cbn; [reflexivity |].
  by rewrite IH, wired_edge_count.
Qed.

Lemma decodes_in_range data nfc j e :
  decodes data nfc j e -> (3 * Z.of_nat j + 2 < Z.of_nat (length (edges data)))%Z.
Proof.
  intros (_ & _ & Hq). unfold quotient in Hq.
  destruct (at_index (edges data) _) as [x |] eqn:E; [| discriminate].
  unfold at_index in E. destruct (_ <? 0)%Z; [discriminate |].
  apply lookup_lt_Some in E. lia.
Qed.

(** What a returned snapshot is, in terms of the document it was decoded from. *)
Lemma parseSnapshot_decoded d log s log' :
  parseSnapshot d log = (Ok s, log') ->
  exists raw,
    as_RawSnapshotData d = Some raw /\
    Sanity.check d log = (Ok tt, log') /\
    let parseInfo := parseInfoFromSnapshot raw in
    let nodes0 := parseNodes raw parseInfo in
    s_nodes s = wired nodes0 (s_edges s) /\
    s_hasDetachedness s = hasDetachedness raw /\
    Forall (fun e => (e_from e < length nodes0)%nat /\ (e_to e < length nodes0)%nat)
      (s_edges s) /\
    (forall j e, s_edges s !! j = Some e -> decodes raw (nodeFieldCount parseInfo) j e) /\
    map e_from (s_edges s) = node_major nodes0 (seq 0 (length nodes0)).
Proof.
  intros H. apply parseSnapshot_Ok in H as (_ & Hcheck & raw & w & Hraw & Hw & ->).
  exists raw. split; [exact Hraw |]. split; [exact Hcheck |].
  apply parseAndWireEdges_Ok in Hw as ((Hnodes & _ & Hrange & Hdec) & Hmajor);
    [| apply parseNodes_fresh].
  cbv zeta. unfold new_SnapshotImpl. cbn [s_nodes s_edges s_hasDetachedness].
  split; [exact Hnodes |]. split; [reflexivity |]. split; [exact Hrange |].
  split; [exact Hdec | exact Hmajor].
Qed.

Lemma parseSnapshot_overrun d log log' raw :
  Sanity.check d log = (Ok tt, log') ->
  as_RawSnapshotData d = Some raw ->
  (Z.of_nat (length (edges raw))
   < 3 * Z.of_nat (declared_iterations (parseNodes raw (parseInfoFromSnapshot raw))))%Z ->
  exists e, parseSnapshot d log = (Throw e, log').
Proof.
  intros Hcheck Hraw Hover.
  assert (Hty : typeof d = "object") by (by apply check_Ok in Hcheck as [[? _] _]).
  unfold parseSnapshot, bind at 1.
  assert (normalize d log = (Ok d, log)) as ->.
  { unfold normalize. destruct d; try discriminate; reflexivity. }
  unfold bind at 1. rewrite Hcheck. unfold bind at 1, coerce. rewrite Hraw.
  unfold bind, lift.
  set (parseInfo := parseInfoFromSnapshot raw) in *.
  set (nodes0 := parseNodes raw parseInfo) in *.
  destruct (parseAndWireEdges raw nodes0 parseInfo) as [w | e |] eqn:Hw.
  - exfalso.
    apply parseAndWireEdges_Ok in Hw as ((_ & _ & _ & Hdec) & Hmajor);
      [| apply parseNodes_fresh].
    apply (f_equal length) in Hmajor.
    rewrite length_map, node_major_length_all in Hmajor.
    destruct (w_result w) as [| e0 rest] eqn:Hres using rev_ind.
    + cbn in Hmajor. lia.
    + clear IHrest. rewrite length_app in Hmajor. cbn in Hmajor.
      assert (Hlast : (rest ++ [e0]) !! length rest = Some e0).
      { rewrite lookup_app_r, Nat.sub_diag by lia. reflexivity. }
      apply Hdec, decodes_in_range in Hlast. lia.
  - by exists e.
  - exfalso. exact (parseAndWireEdges_modelled _ _ _ Hw).
Qed.

Lemma edges_counted d log :
  forall s log', parseSnapshot d log = (Ok s, log') ->
  length (s_edges s) = declared_iterations (s_nodes s).
Proof.
  intros s log' H.
  apply parseSnapshot_decoded in H as (raw & _ & _ & Hnodes & _ & _ & _ & Hmajor).
  rewrite Hnodes, declared_iterations_wired, <- node_major_length_all.
  rewrite <- Hmajor. by rewrite length_map.
Qed.

(** *** C1: the edge array and the declared counts *)

(** C1 (as the code has it): the edges of a returned snapshot number the
    iterations that the declared edge counts allow, their origins follow the
    nodes in node-major order and edge [j] is decoded from the record at
    [3 * j], so that no more records are consumed than the array holds; a
    validated document whose edge array holds fewer records than the declared
    counts ask for makes [parseSnapshot] throw. Records left over are not
    looked at. *)
Theorem edges_follow_declared_counts (d : Val) (log : console) :
  (forall s log', parseSnapshot d log = (Ok s, log') ->
     exists raw, as_RawSnapshotData d = Some raw /\
       length (s_edges s) = declared_iterations (s_nodes s) /\
       map e_from (s_edges s) = node_major (s_nodes s) (seq 0 (length (s_nodes s))) /\
       (forall j e, s_edges s !! j = Some e ->
          decodes raw (nodeFieldCount (parseInfoFromSnapshot raw)) j e) /\
       (3 * Z.of_nat (length (s_edges s)) <= Z.of_nat (length (edges raw)))%Z) /\
  (forall raw log',
     Sanity.check d log = (Ok tt, log') ->
     as_RawSnapshotData d = Some raw ->
     (Z.of_nat (length (edges raw))
      < 3 * Z.of_nat (declared_iterations (parseNodes raw (parseInfoFromSnapshot raw))))%Z ->
     exists e, parseSnapshot d log = (Throw e, log')).
Proof.
  split; [| intros raw log'; apply parseSnapshot_overrun].
  intros s log' H.
  apply parseSnapshot_decoded in H as (raw & Hraw & _ & Hnodes & _ & _ & Hdec & Hmajor).
  exists raw. split; [exact Hraw |].
  split; [| split; [| split; [exact Hdec |]]].
  - rewrite Hnodes, declared_iterations_wired, <- node_major_length_all.
    rewrite <- Hmajor. by rewrite length_map.
  - rewrite Hnodes at 1 2. by rewrite node_major_wired, wired_length.
  - destruct (s_edges s) as [| e0 rest] eqn:Hres using rev_ind; [cbn; lia |].
    clear IHrest. rewrite length_app. cbn.
    assert (Hlast : (rest ++ [e0]) !! length rest = Some e0).
    { rewrite lookup_app_r, Nat.sub_diag by lia. reflexivity. }
    apply Hdec, decodes_in_range in Hlast. lia.
Qed.

Lemma edges_follow_declared_counts_witness :
  (exists s, parseSnapshot doc_two_nodes [] = (Ok s, []) /\ length (s_edges s) = 1%nat) /\
  (exists e, parseSnapshot doc_overrun [] = (Throw e, [])).
Proof.
  split.
  - destruct (parseSnapshot doc_two_nodes []) as [[s | |] log'] eqn:E;
      try (exfalso; vm_compute in E; discriminate).
    assert (log' = []) as -> by (vm_compute in E; congruence).
    exists s. split; [reflexivity |].
    destruct (proj1 (edges_follow_declared_counts doc_two_nodes []) s [] E)
      as (raw & _ & Hlen & _).
    rewrite Hlen. vm_compute in E. injection E as <-. reflexivity.
  - destruct (as_RawSnapshotData doc_overrun) as [raw |] eqn:Hraw;
      [| exfalso; vm_compute in Hraw; discriminate].
    apply (proj2 (edges_follow_declared_counts doc_overrun []) raw []).
    + vm_compute. reflexivity.
    + exact Hraw.
    + vm_compute in Hraw. injection Hraw as <-. vm_compute. reflexivity.
Defined.

(** [doc_leftover] declares no edge and holds one edge record: it is decoded
    to a graph without edges. *)
Lemma leftover_records_accepted :
  exists s,
    parseSnapshot doc_leftover [] = (Ok s, []) /\
    s_edges s = [] /\
    declared_sum (s_nodes s) = 0%Z /\
    prop (prop doc_leftover "edges") "length" = VNum 3.
Proof. eexists. repeat split; vm_compute; reflexivity. Qed.

(** *** C5: the wiring *)

Lemma wired_lookup nodes result k n :
  fresh nodes ->
  wired nodes result !! k = Some n ->
  out_edges n = positions (from_is k) 0 result /\
  in_edges n = positions (to_is k) 0 result.
Proof.
  intros Hfresh. unfold wired. rewrite list_lookup_imap.
  destruct (nodes !! k) as [n0 |] eqn:E; cbn; [| discriminate].
  intros H. inversion H; subst n; clear H. cbn.
  destruct (proj1 (Forall_lookup _ _) Hfresh k n0 E) as [-> ->]. done.
Qed.

(** C5 (as the code has it): in a returned snapshot every edge [j] is a
    member of the outgoing list of its origin and of the incoming list of its
    destination; the lists of a node hold exactly the edges that leave it and
    reach it; they are strictly increasing in the decode position, hence
    without repetition and in decode order; the number of edges, the total
    size of the outgoing lists and the total size of the incoming lists are
    equal, and equal the sum of the declared edge counts where a negative
    count contributes nothing. When no count is negative this is the sum of
    the declared counts. *)
Theorem edges_wired_once (d : Val) (log : console) (s : SnapshotImpl) (log' : console) :
  parseSnapshot d log = (Ok s, log') ->
  (forall j e, s_edges s !! j = Some e ->
     exists origin destination,
       s_nodes s !! e_from e = Some origin /\
       s_nodes s !! e_to e = Some destination /\
       j ∈ out_edges origin /\ j ∈ in_edges destination) /\
  (forall k n j, s_nodes s !! k = Some n ->
     (j ∈ out_edges n <-> exists e, s_edges s !! j = Some e /\ e_from e = k) /\
     (j ∈ in_edges n <-> exists e, s_edges s !! j = Some e /\ e_to e = k)) /\
  Forall (fun n => StronglySorted lt (out_edges n) /\ NoDup (out_edges n) /\
                   StronglySorted lt (in_edges n) /\ NoDup (in_edges n)) (s_nodes s) /\
  declared_iterations (s_nodes s) = length (s_edges s) /\
  total_out (s_nodes s) = length (s_edges s) /\
  total_in (s_nodes s) = length (s_edges s) /\
  (Forall (fun n => exists c, n_edge_count n = Some c /\ (0 <= c)%Z) (s_nodes s) ->
   declared_sum (s_nodes s) = Z.of_nat (length (s_edges s))).
Proof.
  intros H.
  pose proof (edges_counted d log s log' H) as Hlen.
  apply parseSnapshot_decoded in H as (raw & _ & _ & Hnodes & _ & Hrange & _ & _).
  set (nodes0 := parseNodes raw (parseInfoFromSnapshot raw)) in *.
  pose proof (parseNodes_fresh raw (parseInfoFromSnapshot raw)) as Hfresh.
  fold nodes0 in Hfresh.
  assert (Hlists : forall k n j, s_nodes s !! k = Some n ->
     (j ∈ out_edges n <-> exists e, s_edges s !! j = Some e /\ e_from e = k) /\
     (j ∈ in_edges n <-> exists e, s_edges s !! j = Some e /\ e_to e = k)).
  { intros k n j Hk. rewrite Hnodes in Hk.
    destruct (wired_lookup _ _ _ _ Hfresh Hk) as [-> ->].
    rewrite !elem_of_positions, Nat.sub_0_r. unfold from_is, to_is.
    split; split.
    - intros (_ & e & He & Hp). apply Nat.eqb_eq in Hp. by exists e.
    - intros (e & He & Hp). split; [lia |]. exists e. by rewrite Nat.eqb_eq.
    - intros (_ & e & He & Hp). apply Nat.eqb_eq in Hp. by exists e.
    - intros (e & He & Hp). split; [lia |]. exists e. by rewrite Nat.eqb_eq. }
  split; [| split; [exact Hlists |]].
  - intros j e Hj.
    pose proof (proj1 (Forall_lookup _ _) Hrange j e Hj) as [Hf Ht].
    destruct (lookup_lt_is_Some_2 (s_nodes s) (e_from e)) as [origin Ho];
      [by rewrite Hnodes, wired_length |].
    destruct (lookup_lt_is_Some_2 (s_nodes s) (e_to e)) as [destination Hd];
      [by rewrite Hnodes, wired_length |].
    exists origin, destination. split; [exact Ho |]. split; [exact Hd |]. split.
    + apply (Hlists _ _ j Ho). by exists e.
    + apply (Hlists _ _ j Hd). by exists e.
  - split; [| split; [| split; [| split]]].
    + apply Forall_lookup. intros k n Hk. rewrite Hnodes in Hk.
      destruct (wired_lookup _ _ _ _ Hfresh Hk) as [-> ->].
      repeat split; try apply positions_sorted; apply sorted_lt_NoDup, positions_sorted.
    + symmetry. exact Hlen.
    + rewrite Hnodes, (total_out_wired _ _ Hrange).
      by rewrite (proj1 (fresh_totals _ Hfresh)).
    + rewrite Hnodes, (total_in_wired _ _ Hrange).
      by rewrite (proj2 (fresh_totals _ Hfresh)).
    + intros Hpos. rewrite <- (declared_sum_nonneg _ Hpos). by rewrite Hlen.
Qed.

Lemma edges_wired_once_witness :
  exists s,
    parseSnapshot doc_two_nodes [] = (Ok s, []) /\
    total_out (s_nodes s) = length (s_edges s) /\
    total_in (s_nodes s) = length (s_edges s).
Proof.
  destruct (parseSnapshot doc_two_nodes []) as [[s | |] log'] eqn:E;
    try (exfalso; vm_compute in E; discriminate).
  assert (log' = []) as -> by (vm_compute in E; congruence).
  exists s. split; [reflexivity |].
  destruct (edges_wired_once doc_two_nodes [] s [] E) as (_ & _ & _ & _ & Hout & Hin & _).
  split; [exact Hout | exact Hin].
Defined.

(** In [doc_negative_count] the declared counts -1 and 1 sum to 0, and one
    edge is decoded. *)
Lemma negative_count_breaks_sum :
  exists s,
    parseSnapshot doc_negative_count [] = (Ok s, []) /\
    declared_sum (s_nodes s) = 0%Z /\
    length (s_edges s) = 1%nat /\
    total_out (s_nodes s) = 1%nat /\
    total_in (s_nodes s) = 1%nat.
Proof. eexists. repeat split; vm_compute; reflexivity. Qed.

(** *** C2: the node decoder *)

Lemma wired_fields nodes result i node :
  wired nodes result !! i = Some node ->
  exists node0, nodes !! i = Some node0 /\ fields_of node = fields_of node0.
Proof.
  unfold wired. rewrite list_lookup_imap.
  destruct (nodes !! i) as [node0 |]; cbn; [| discriminate].
  intros H. inversion H. by exists node0.
Qed.

Lemma nodes_decoded d log :
  (forall data parseInfo i, (i < Z.to_nat (node_count data))%nat ->
     parseNodes data parseInfo !! i
     = Some (parseNode data (nodeFieldCount parseInfo) (Z.of_nat i))) /\
  (forall s log', parseSnapshot d log = (Ok s, log') ->
     exists raw, as_RawSnapshotData d = Some raw /\
       forall i node, s_nodes s !! i = Some node ->
         fields_of node
         = fields_of (parseNode raw (nodeFieldCount (parseInfoFromSnapshot raw)) (Z.of_nat i))).
Proof.
  split; [intros data parseInfo i Hi; by apply parseNodes_lookup |].
  intros s log' H.
  apply parseSnapshot_decoded in H as (raw & Hraw & _ & Hnodes & _).
  exists raw. split; [exact Hraw |].
  intros i node Hi. rewrite Hnodes in Hi.
  apply wired_fields in Hi as (node0 & Hi & ->).
  by apply parseNodes_lookup in Hi as [_ ->].
Qed.

(** C2 (as the code has it): [parseNodes] always returns, with one node per
    iteration in the order of the records, and the type of a node is whatever
    [node_types[0]] holds at the first field of its record, [undefined] when
    that is no index of it; in a returned snapshot the nodes number exactly
    the declared [node_count] and node [i] carries the fields of record [i]. *)
Theorem nodes_decoded_in_order (d : Val) (log : console) :
  (forall data parseInfo,
     length (parseNodes data parseInfo) = Z.to_nat (node_count data) /\
     forall i, (i < Z.to_nat (node_count data))%nat ->
       exists node,
         parseNodes data parseInfo !! i = Some node /\
         node = parseNode data (nodeFieldCount parseInfo) (Z.of_nat i) /\
         n_type node
         = at_index (node_types_0 (meta data))
             (at_index (nodes data) (Some (Z.of_nat i * nodeFieldCount parseInfo)%Z))) /\
  (forall s log', parseSnapshot d log = (Ok s, log') ->
     exists raw, as_RawSnapshotData d = Some raw /\
       Z.of_nat (length (s_nodes s)) = node_count raw /\
       forall i node, s_nodes s !! i = Some node ->
         fields_of node
         = fields_of (parseNode raw (nodeFieldCount (parseInfoFromSnapshot raw)) (Z.of_nat i))).
Proof.
  split.
  - intros data parseInfo. split; [apply parseNodes_length |].
    intros i Hi. eexists. split; [by apply parseNodes_lookup | split; reflexivity].
  - intros s log' H.
    apply parseSnapshot_decoded in H as (raw & Hraw & Hcheck & Hnodes & _).
    exists raw. split; [exact Hraw |].
    destruct (validated_raw _ _ _ _ _ Hcheck Hraw) as (_ & _ & _ & Hpos & _).
    split.
    + rewrite Hnodes, wired_length, parseNodes_length. lia.
    + intros i node Hi. rewrite Hnodes in Hi.
      apply wired_fields in Hi as (node0 & Hi & ->).
      by apply parseNodes_lookup in Hi as [_ ->].
Qed.

Lemma nodes_decoded_in_order_witness :
  exists s, parseSnapshot doc_two_nodes [] = (Ok s, []) /\ length (s_nodes s) = 2%nat.
Proof.
  destruct (parseSnapshot doc_two_nodes []) as [[s | |] log'] eqn:E;
    try (exfalso; vm_compute in E; discriminate).
  assert (log' = []) as -> by (vm_compute in E; congruence).
  exists s. split; [reflexivity |].
  destruct (proj2 (nodes_decoded_in_order doc_two_nodes []) s [] E) as (raw & Hraw & Hlen & _).
  vm_compute in Hraw. injection Hraw as <-. cbn in Hlen. lia.
Defined.

(** The type of a node is looked up in the list that the document declares:
    [doc_new_type] is reported as drifting and decoded with its 15th type. *)
Lemma declared_type_list_used :
  exists s,
    parseSnapshot doc_new_type []
    = (Ok s, [warn_new_elements
                (PIndex (PField (PRoot "data.snapshot.meta") "node_types") 0) 1;
              warn_new_element 14 (VStr "wasm object");
              error_format_changed; error_continuing]) /\
    n_type <$> (s_nodes s !! 0%nat) = Some (Some "wasm object").
Proof. eexists. split; vm_compute; reflexivity. Qed.

(** The first record of [doc_bad_type] has type index 99, which is no index
    of the 14 node types: the document is decoded and the node has no type. *)
Lemma bad_type_index_accepted :
  exists s,
    parseSnapshot doc_bad_type [] = (Ok s, []) /\
    at_index node_type_names (Some 99%Z) = None /\
    n_type <$> (s_nodes s !! 0%nat) = Some None.
Proof. eexists. repeat split; vm_compute; reflexivity. Qed.

(** *** C6: detachedness *)

(** C6: the capability flag of a returned snapshot is set exactly when the
    document declares at least 7 node fields; with 6 node fields no node has
    a [detached] value; with 7 node fields the [detached] value of node [i] is
    [true] exactly when the 7th stored value of its record is 1. *)
Theorem detachedness_by_layout (d : Val) (log : console) (s : SnapshotImpl) (log' : console) :
  parseSnapshot d log = (Ok s, log') ->
  exists raw nfc,
    as_RawSnapshotData d = Some raw /\
    prop (prop (prop (prop d "snapshot") "meta") "node_fields") "length" = VNum nfc /\
    nfc = nodeFieldCount (parseInfoFromSnapshot raw) /\
    s_hasDetachedness s = hasDetachedness raw /\
    (s_hasDetachedness s = true <-> (7 <= nfc)%Z) /\
    (nfc = 6%Z -> forall i node, s_nodes s !! i = Some node -> n_detached node = None) /\
    (nfc = 7%Z -> forall i node v,
       s_nodes s !! i = Some node ->
       nodes raw !! (7 * i + 6)%nat = Some v ->
       n_detached node = Some (Z.eqb v 1)).
Proof.
  intros H.
  destruct (proj2 (nodes_decoded d log) s log' H) as (raw & Hraw & Hfields).
  apply parseSnapshot_decoded in H as (raw' & Hraw' & _ & _ & Hflag & _).
  assert (raw' = raw) as -> by congruence.
  exists raw, (nodeFieldCount (parseInfoFromSnapshot raw)).
  split; [exact Hraw |]. split; [by apply as_RawSnapshotData_Some in Hraw as (_&_&_&?&_) |].
  split; [reflexivity |]. split; [exact Hflag |]. split; [| split].
  - rewrite Hflag. unfold hasDetachedness. cbn. apply Z.leb_le.
  - intros Hsix i node Hi. apply Hfields in Hi.
    apply (f_equal snd) in Hi. cbn in Hi, Hsix. rewrite Hi, Hsix.
    unfold access. by rewrite (proj2 (Z.ltb_ge _ _)) by lia.
  - intros Hseven i node v Hi Hv. apply Hfields in Hi.
    apply (f_equal snd) in Hi. cbn in Hi, Hseven. rewrite Hi, Hseven.
    unfold access. rewrite (proj2 (Z.ltb_lt _ _)) by lia.
    unfold at_index. rewrite (proj2 (Z.ltb_ge _ _)) by lia.
    replace (Z.to_nat (Z.of_nat i * 7 + 6)) with (7 * i + 6)%nat by lia.
    by rewrite Hv.
Qed.

Lemma detachedness_by_layout_witness :
  exists s,
    parseSnapshot doc_seven_fields [] = (Ok s, []) /\
    s_hasDetachedness s = true /\
    n_detached <$> (s_nodes s !! 0%nat) = Some (Some true) /\
    n_detached <$> (s_nodes s !! 1%nat) = Some (Some false).
Proof.
  destruct (parseSnapshot doc_seven_fields []) as [[s | |] log'] eqn:E;
    try (exfalso; vm_compute in E; discriminate).
  assert (log' = []) as -> by (vm_compute in E; congruence).
  exists s. split; [reflexivity |].
  destruct (detachedness_by_layout doc_seven_fields [] s [] E)
    as (raw & nfc & Hraw & Hlen & _ & _ & Hflag & _ & Hseven).
  vm_compute in Hlen. injection Hlen as <-.
  vm_compute in Hraw. injection Hraw as <-.
  split; [by apply Hflag |].
  destruct (s_nodes s !! 0%nat) as [n0 |] eqn:E0;
    [| exfalso; vm_compute in E; injection E as <-; discriminate].
  destruct (s_nodes s !! 1%nat) as [n1 |] eqn:E1;
    [| exfalso; vm_compute in E; injection E as <-; discriminate].
  split; cbn; f_equal.
  - apply (Hseven eq_refl 0%nat n0 1%Z E0). reflexivity.
  - apply (Hseven eq_refl 1%nat n1 0%Z E1). reflexivity.
Defined.

(** *** C4 and C9: edge names *)

(** C4 (the code at the failing input): the property edge of
    [doc_negative_name] names the string index -1, which is out of the bounds
    of the string table; the document is decoded and the edge has no name. *)
Theorem negative_string_index_decoded :
  exists s,
    parseSnapshot doc_negative_name [] = (Ok s, []) /\
    s_edges s = [{| e_type := Some "property"; e_name := NameUndef;
                    e_from := 0%nat; e_to := 1%nat |}].
Proof. eexists. split; vm_compute; reflexivity. Qed.

(** The parts of the name resolution that hold as C4 states them. *)
Lemma name_or_index_cases strings type i :
  (type = Some "element" \/ type = Some "hidden" ->
     name_or_index strings type (Some i) = Ok (NameNum i)) /\
  (type <> Some "element" -> type <> Some "hidden" ->
     (Z.of_nat (length strings) <= i)%Z ->
     name_or_index strings type (Some i) = Throw (Error (text "Invalid string index!"))) /\
  (type <> Some "element" -> type <> Some "hidden" ->
     forall s, strings !! Z.to_nat i = Some s -> (0 <= i)%Z ->
     name_or_index strings type (Some i) = Ok (NameStr s)).
Proof.
  unfold name_or_index. repeat split.
  - intros [-> | ->]; reflexivity.
  - intros H1 H2 Hi. rewrite !bool_decide_eq_false_2 by done. cbn.
    by rewrite (proj2 (Z.leb_le _ _)) by lia.
  - intros H1 H2 s Hs Hi. rewrite !bool_decide_eq_false_2 by done. cbn.
    apply lookup_lt_Some in Hs as Hlt.
    rewrite (proj2 (Z.leb_gt _ _)) by lia.
    rewrite (proj2 (Z.ltb_ge _ _)) by lia. by rewrite Hs.
Qed.

(** C9: for an edge type other than "element" and "hidden" and a negative
    second field the bounds check of [name_or_index] does not fire and the
    name is [undefined]; the record is then decoded without error, with that
    name, whenever its destination resolves to a node. *)
Theorem negative_index_passes_bounds_check
    (data : RawSnapshotData) (nodeFieldCount : Z) (from_node : nat) (w : Wiring)
    (type : option string) (i t : Z) :
  type <> Some "element" -> type <> Some "hidden" -> (i < 0)%Z ->
  name_or_index (strings data) type (Some i) = Ok NameUndef /\
  (at_index (edge_types_0 (meta data)) (at_index (edges data) (Some (w_edgeIndex w))) = type ->
   at_index (edges data) (Some (w_edgeIndex w + 1)%Z) = Some i ->
   quotient (at_index (edges data) (Some (w_edgeIndex w + 2)%Z)) nodeFieldCount = Some t ->
   (0 <= t < Z.of_nat (length (w_nodes w)))%Z ->
   exists w',
     wire_edge data nodeFieldCount from_node w = Ok w' /\
     w_result w' = w_result w ++ [{| e_type := type; e_name := NameUndef;
                                     e_from := from_node; e_to := Z.to_nat t |}]).
Proof.
  intros H1 H2 Hi.
  assert (Hname : name_or_index (strings data) type (Some i) = Ok NameUndef).
  { unfold name_or_index. rewrite !bool_decide_eq_false_2 by done. cbn.
    rewrite (proj2 (Z.leb_gt _ _)) by lia.
    by rewrite (proj2 (Z.ltb_lt _ _)) by lia. }
  split; [exact Hname |].
  intros Htype Hidx Hq Ht. unfold wire_edge. rewrite Htype, Hidx, Hname. cbn [obind].
  rewrite Hq.
  rewrite (proj2 (Z.ltb_ge _ _)), (proj2 (Z.leb_gt _ _)) by lia. cbn.
  eexists. split; reflexivity.
Qed.

Lemma negative_index_passes_bounds_check_witness :
  name_or_index (strings raw_negative_name) (Some "property") (Some (-1)%Z) = Ok NameUndef /\
  exists w',
    wire_edge raw_negative_name 6 0
      {| w_nodes := parseNodes raw_negative_name (parseInfoFromSnapshot raw_negative_name);
         w_result := []; w_edgeIndex := 0 |} = Ok w' /\
    w_result w' = [{| e_type := Some "property"; e_name := NameUndef;
                      e_from := 0%nat; e_to := 1%nat |}].
Proof.
  destruct (negative_index_passes_bounds_check raw_negative_name 6%Z 0%nat
              {| w_nodes := parseNodes raw_negative_name
                              (parseInfoFromSnapshot raw_negative_name);
                 w_result := []; w_edgeIndex := 0 |}
              (Some "property") (-1)%Z 1%Z) as [Hname Hstep];
    [discriminate | discriminate | lia |].
  split; [exact Hname |].
  apply Hstep; [reflexivity | reflexivity | reflexivity |].
  cbn [w_nodes]. rewrite parseNodes_length. cbn. lia.
Defined.

(** ** class SnapshotImpl *)

Lemma find_node_None pred nodes : forall pos,
  find_node pred pos nodes = None <-> Forall (fun n => pred n = false) nodes.
Proof.
  induction nodes as [| n nodes IH]; intros pos; cbn; [split; [constructor | done] |].
  destruct (pred n) eqn:Hn.
  - split; [discriminate |]. intros H. apply Forall_cons in H as [H _]. congruence.
  - rewrite IH. split; [by constructor | intros H; by apply Forall_cons in H as [_ H]].
Qed.

(** C8: once [global] has returned a node, every later access returns that
    node from the cache, whatever the node array then holds, and leaves the
    object as it is; the same holds for [modules], which always returns and
    caches also the empty list; on a snapshot without a node named
    "global / " the access to [global] throws, while the construction of the
    snapshot is a total function. *)
Theorem views_cached (this : SnapshotImpl) :
  (forall g this', global this = (Ok g, this') ->
     _global this' = Some g /\
     forall later, _global later = _global this' -> global later = (Ok g, later)) /\
  (forall m this', modules this = (m, this') ->
     _modules this' = Some m /\
     forall later, _modules later = _modules this' -> modules later = (m, later)) /\
  (_global this = None ->
   Forall (fun n => n_name n <> Some "global / ") (s_nodes this) ->
   fst (global this) = Throw (Error (text "Could not find global object!"))) /\
  (forall nodes edges flag,
     Forall (fun n => n_name n <> Some "global / ") nodes ->
     fst (global (new_SnapshotImpl nodes edges flag))
     = Throw (Error (text "Could not find global object!"))) /\
  (forall nodes edges flag,
     Forall (fun n => is_module n = false) nodes ->
     fst (modules (new_SnapshotImpl nodes edges flag)) = [] /\
     _modules (snd (modules (new_SnapshotImpl nodes edges flag))) = Some []).
Proof.
  assert (Hnone : forall nodes, Forall (fun n => n_name n <> Some "global / ") nodes ->
            find_node is_global 0 nodes = None).
  { intros nodes H. apply find_node_None. eapply Forall_impl; [exact H |].
    intros n Hn. unfold is_global. by apply bool_decide_eq_false_2. }
  split; [| split; [| split; [| split]]].
  - intros g this'. unfold global.
    destruct (_global this) as [g0 |] eqn:Hg.
    + intros H. inversion H; subst. split; [exact Hg |].
      intros later Hl. rewrite Hg in Hl. by rewrite Hl.
    + cbn. destruct (find_node is_global 0 (s_nodes this)) as [g1 |] eqn:Hf;
        intros H; inversion H; subst. cbn. split; [reflexivity |].
      intros later Hl. by rewrite Hl.
  - intros m this'. unfold modules.
    destruct (_modules this) as [m0 |] eqn:Hm; intros H; inversion H; subst.
    + split; [exact Hm |]. intros later Hl. rewrite Hm in Hl. by rewrite Hl.
    + cbn. split; [reflexivity |]. intros later Hl. by rewrite Hl.
  - intros Hg Hall. unfold global. rewrite Hg. cbn. by rewrite (Hnone _ Hall).
  - intros nodes edges flag Hall. unfold global. cbn. by rewrite (Hnone _ Hall).
  - intros nodes edges flag Hall. unfold modules. cbn.
    assert (positions is_module 0 nodes = []) as ->; [| done].
    generalize 0%nat. induction Hall as [| n nodes Hn _ IH]; intros pos; cbn; [done |].
    by rewrite Hn.
Qed.

Lemma views_cached_witness :
  fst (global (snd (modules snapshot_shared_id)))
  = Throw (Error (text "Could not find global object!")) /\
  modules (snd (modules snapshot_shared_id)) = ([], snd (modules snapshot_shared_id)) /\
  global (snd (global snapshot_with_global)) = (Ok 1%nat, snd (global snapshot_with_global)).
Proof.
  destruct (views_cached snapshot_shared_id) as (_ & Hmod & _ & _ & _).
  destruct (views_cached (snd (modules snapshot_shared_id))) as (_ & _ & Hglob & _ & _).
  destruct (views_cached snapshot_with_global) as (Hcached & _).
  split; [| split].
  - apply Hglob; [reflexivity |]. repeat constructor; discriminate.
  - destruct (Hmod [] (snd (modules snapshot_shared_id)) eq_refl) as [_ Hlater].
    apply Hlater. reflexivity.
  - destruct (Hcached 1%nat (snd (global snapshot_with_global)) eq_refl) as [_ Hlater].
    apply Hlater. reflexivity.
Defined.

(** *** C10: the id index *)

Lemma set_ids_absent key nodes : forall pos mapping,
  Forall (fun n => n_id n <> key) nodes ->
  set_ids pos nodes mapping !! key = mapping !! key.
Proof.
  induction nodes as [| n nodes IH]; intros pos mapping Hall; cbn; [reflexivity |].
  apply Forall_cons in Hall as [Hn Hall].
  rewrite IH by exact Hall. by rewrite lookup_insert_ne.
Qed.

Lemma set_ids_last nodes : forall pos mapping k node,
  nodes !! k = Some node ->
  (forall j node', (k < j)%nat -> nodes !! j = Some node' -> n_id node' <> n_id node) ->
  set_ids pos nodes mapping !! n_id node = Some (pos + k)%nat.
Proof.
  induction nodes as [| n nodes IH]; intros pos mapping k node Hk Hlast; [discriminate |].
  destruct k as [| k]; cbn in *.
  - inversion Hk; subst n. rewrite set_ids_absent.
    + by rewrite lookup_insert_eq, Nat.add_0_r.
    + apply Forall_lookup. intros j node' Hj. apply (Hlast (S j)); [lia | exact Hj].
  - rewrite (IH (S pos) _ k node Hk).
    + f_equal. lia.
    + intros j node' Hlt Hj. apply (Hlast (S j)); [lia | exact Hj].
Qed.

(** C10: the construction of a snapshot is a total function, also when
    several nodes share an id, and [findNodeById] returns the last node in
    decode order that carries the id. *)
Theorem findNodeById_returns_last
    (nodes : list NodeImpl) (edges : list EdgeImpl) (flag : bool)
    (id : Z) (k : nat) (node : NodeImpl) :
  nodes !! k = Some node ->
  n_id node = Some id ->
  (forall j node', (k < j)%nat -> nodes !! j = Some node' -> n_id node' <> Some id) ->
  findNodeById (new_SnapshotImpl nodes edges flag) id = Some k.
Proof.
  intros Hk Hid Hlast. unfold findNodeById, new_SnapshotImpl. cbn.
  rewrite <- Hid. rewrite (set_ids_last nodes 0 ∅ k node Hk); [reflexivity |].
  intros j node' Hlt Hj. rewrite Hid. by apply (Hlast j).
Qed.

Lemma findNodeById_returns_last_witness :
  findNodeById snapshot_shared_id 7 = Some 2%nat.
Proof.
  eapply (findNodeById_returns_last nodes_shared_id [] false 7 2%nat);
    [reflexivity | reflexivity |].
  intros j node' Hlt Hj.
  destruct j as [| [| [| j]]]; [lia | lia | lia | discriminate Hj].
Defined.

(** ** The two-node example end to end *)

(** Nodes A and B, the property edge "x" from A to B, wired on both sides;
    the global anchor is A. *)
Example two_nodes_end_to_end :
  exists s,
    parseSnapshot doc_two_nodes [] = (Ok s, []) /\
    map fields_of (s_nodes s)
    = [(Some "object", Some "global / ", Some 1%Z, Some 10%Z, Some 1%Z, Some 0%Z, None);
       (Some "string", Some "hi", Some 2%Z, Some 20%Z, Some 0%Z, Some 0%Z, None)] /\
    s_edges s = [{| e_type := Some "property"; e_name := NameStr "x";
                    e_from := 0%nat; e_to := 1%nat |}] /\
    map out_edges (s_nodes s) = [[0%nat]; []] /\
    map in_edges (s_nodes s) = [[]; [0%nat]] /\
    fst (global s) = Ok 0%nat.
Proof. eexists. repeat split; vm_compute; reflexivity. Qed.

(* ===================================================================== *)
(** * Further properties of the code *)
(* ===================================================================== *)

(** ** The drift check *)

Lemma emit_Ok d log u log' : emit d log = (Ok u, log') -> log' = log ++ [d].
Proof. unfold emit. intros H. by inversion H. Qed.

Lemma warn_extra_Ok extra : forall idx log u log',
  Sanity.warn_extra idx extra log = (Ok u, log') ->
  exists ws, log' = log ++ ws.
Proof.
  induction extra as [| d rest IH]; intros idx log u log' H;
    cbn [Sanity.warn_extra] in H.
  - apply ret_Ok in H as [_ ->]. exists []. by rewrite app_nil_r.
  - apply bind_Ok in H as ([] & log1 & Hemit & H). apply emit_Ok in Hemit as ->.
    apply IH in H as [ws ->]. exists ([warn_new_element idx d] ++ ws).
    by rewrite app_assoc.
Qed.

Lemma warn_scalar_Ok p s data log u log' :
  Sanity.warn_scalar p s data log = (Ok u, log') ->
  log' = log ++ [warn_expected p s data].
Proof.
  unfold Sanity.warn_scalar. destruct (tostring_throws data); [discriminate |].
  apply emit_Ok.
Qed.

Lemma get_field x k v :
  isArray x = false -> typeof x = "object" -> get x k = Ok v -> v = field x k.
Proof. destruct x; cbn; try discriminate; intros _ _ H; by inversion H. Qed.

(** What a run of [checkMetaData] that returns has done: its result is the
    match of the descriptor with the template, it has only appended to the
    console, and it has appended nothing exactly when the result is [true]. *)
Lemma checkMetaData_Ok proto : forall p data log b log',
  Sanity.checkMetaData p data proto log = (Ok b, log') ->
  b = conforms data proto /\ exists ws, log' = log ++ ws /\ (b = true <-> ws = []).
Proof.
  assert (Hsilent : forall (log : console) b, b = true ->
            exists ws : console, log = log ++ ws /\ (b = true <-> ws = [])).
  { intros log b ->. exists []. by rewrite app_nil_r. }
  assert (Hwarned : forall (log : console) d,
            exists ws : console, log ++ [d] = log ++ ws /\ (false = true <-> ws = [])).
  { intros log d. exists [d]. split; [reflexivity |]. split; discriminate. }
  induction proto as [value IH | s | items IH | props IH] using Proto_induction;
    intros p data log b log' H.
  - destruct data; try (by apply IH in H).
    cbn [Sanity.checkMetaData conforms] in H |- *. apply ret_Ok in H as [<- ->].
    split; [reflexivity | by apply Hsilent].
  - assert (Hmiss : (Sanity.warn_scalar p s data ;;; ret false) log = (Ok b, log') ->
              b = false /\ log' = log ++ [warn_expected p s data]).
    { intros H'. apply bind_Ok in H' as ([] & log1 & Hw & H').
      apply warn_scalar_Ok in Hw as ->. by apply ret_Ok in H' as [<- ->]. }
    destruct data; cbn [Sanity.checkMetaData conforms] in H |- *;
      try (apply Hmiss in H as [-> ->]; split; [reflexivity | apply Hwarned]).
    destruct (String.eqb s s0).
    + apply ret_Ok in H as [<- ->]. split; [reflexivity | by apply Hsilent].
    + apply Hmiss in H as [-> ->]. split; [reflexivity | apply Hwarned].
  - assert (Hmiss : (emit (warn_not_array p data) ;;; ret false) log = (Ok b, log') ->
              b = false /\ log' = log ++ [warn_not_array p data]).
    { intros H'. apply bind_Ok in H' as ([] & log1 & Hw & H').
      apply emit_Ok in Hw as ->. by apply ret_Ok in H' as [<- ->]. }
    destruct data; cbn [Sanity.checkMetaData conforms] in H |- *;
      try (apply Hmiss in H as [-> ->]; split; [reflexivity | apply Hwarned]).
    clear Hmiss. apply bind_Ok in H as (ok0 & log0 & Hlen & H).
    assert (Hlen' : ok0 = (length elems <=? length items)%nat /\
              exists ws0, log0 = log ++ ws0 /\ (ok0 = true <-> ws0 = [])).
    { destruct (Nat.ltb_spec (length items) (length elems)) as [Hlt | Hge].
      - apply bind_Ok in Hlen as ([] & log1 & He & Hlen). apply emit_Ok in He as ->.
        apply bind_Ok in Hlen as ([] & log2 & Hx & Hlen).
        apply warn_extra_Ok in Hx as [wx ->]. apply ret_Ok in Hlen as [<- ->].
        split; [symmetry; apply Nat.leb_gt; lia |].
        eexists. rewrite <- app_assoc. split; [reflexivity |]. split; discriminate.
      - apply ret_Ok in Hlen as [<- ->].
        split; [symmetry; apply Nat.leb_le; lia | by apply Hsilent]. }
    clear Hlen. destruct Hlen' as (-> & ws0 & -> & Hws0).
    set (ok0 := (length elems <=? length items)%nat) in *. clearbody ok0.
    revert H. generalize 0%nat. revert ok0 ws0 Hws0.
    induction IH as [| item rest Hitem _ IHrest]; intros ok0 ws0 Hws0 idx H.
    + apply ret_Ok in H as [<- ->]. rewrite andb_true_r. split; [reflexivity |].
      by exists ws0.
    + apply bind_Ok in H as (r & log1 & Hr & H).
      apply Hitem in Hr as (-> & ws1 & -> & Hws1).
      rewrite <- app_assoc in H.
      apply IHrest in H as (-> & ws & -> & Hws).
      * split; [by destruct ok0, (conforms (nth idx elems VUndef) item) |]. by exists ws.
      * split.
        -- intros Hb. apply andb_true_iff in Hb as [Hb1 Hb2].
           by rewrite (proj1 Hws0 Hb2), (proj1 Hws1 Hb1).
        -- intros Happ. apply app_eq_nil in Happ as [-> ->].
           by rewrite (proj2 Hws0 eq_refl), (proj2 Hws1 eq_refl).
  - cbn [Sanity.checkMetaData conforms] in H |- *.
    destruct (isArray data) eqn:Harr; cbn [orb negb andb] in H |- *.
    { apply bind_Ok in H as ([] & log1 & Hw & H). apply emit_Ok in Hw as ->.
      apply ret_Ok in H as [<- ->]. split; [reflexivity | apply Hwarned]. }
    destruct (String.eqb (typeof data) "object") eqn:Hty; cbn [negb andb] in H |- *.
    2: { apply bind_Ok in H as ([] & log1 & Hw & H). apply emit_Ok in Hw as ->.
         apply ret_Ok in H as [<- ->]. split; [reflexivity | apply Hwarned]. }
    apply String.eqb_eq in Hty.
    revert H.
    match goal with
    | |- ?each props true log = _ -> _ =>
        cut (forall ok0 ws0, (ok0 = true <-> ws0 = []) ->
               each props ok0 (log ++ ws0) = (Ok b, log') ->
               b = forallb (fun kp => conforms (field data kp.1) kp.2) props && ok0 /\
               exists ws : list diagnostic, log' = log ++ ws /\ (b = true <-> ws = []))
    end.
    { intros Hcut H. rewrite <- (andb_true_r (forallb _ props)).
      apply (Hcut true []); [done | by rewrite app_nil_r]. }
    induction IH as [| [k item] rest Hitem _ IHrest]; intros ok0 ws0 Hws0 H.
    + apply ret_Ok in H as [<- ->]. split; [reflexivity | by exists ws0].
    + apply bind_Ok in H as (v & log1 & Hv & H). apply lift_Ok in Hv as [Hv ->].
      apply (get_field _ _ _ Harr Hty) in Hv as ->.
      apply bind_Ok in H as (r & log1 & Hr & H).
      apply Hitem in Hr as (-> & ws1 & -> & Hws1).
      rewrite <- app_assoc in H.
      apply IHrest in H as (-> & ws & -> & Hws).
      * split; [cbn; by destruct ok0, (conforms (field data k) item),
                  (forallb (fun kp => conforms (field data kp.1) kp.2) rest) |].
        by exists ws.
      * split.
        -- intros Hb. apply andb_true_iff in Hb as [Hb1 Hb2].
           by rewrite (proj1 Hws0 Hb2), (proj1 Hws1 Hb1).
        -- intros Happ. apply app_eq_nil in Happ as [-> ->].
           by rewrite (proj2 Hws0 eq_refl), (proj2 Hws1 eq_refl).
Qed.





Lemma bind_lift_Ok {A B} (a : A) (f : A -> M B) log :
  bind (lift (Ok a)) f log = f a log.
Proof. reflexivity. Qed.

Lemma bind_ext {A B} (m : M A) (k1 k2 : A -> M B) log :
  (forall a log1, k1 a log1 = k2 a log1) -> bind m k1 log = bind m k2 log.
Proof. intros H. unfold bind. destruct (m log) as [[a | |] log1]; [apply H | done..]. Qed.

(** X3: the drift check of an object reads the descriptor only at the keys of
    the template: two objects with the same entries at those keys are checked
    alike, so an entry under an unknown key is never reported. *)
Theorem checkMetaData_ignores_unknown_keys
    (p : path) (props : list (string * Sanity.Proto))
    (ps1 ps2 : list (string * Val)) (log : console) :
  Forall (fun kp => lookup_prop (fst kp) ps1 = lookup_prop (fst kp) ps2) props ->
  Sanity.checkMetaData p (VObj ps1) (Sanity.PObj props) log
  = Sanity.checkMetaData p (VObj ps2) (Sanity.PObj props) log.
Proof.
  intros Hsame. cbn [Sanity.checkMetaData isArray typeof orb].
  rewrite String.eqb_refl. cbn [negb].
  match goal with
  | |- ?each1 props true log = ?each2 props true log =>
      enough (forall ok log0, each1 props ok log0 = each2 props ok log0) by done
  end.
  induction Hsame as [| [k item] rest Hk _ IH]; intros ok log0; [reflexivity |].
  cbn [fst] in Hk. simpl. rewrite !bind_lift_Ok, Hk.
  apply bind_ext. intros r log1. apply IH.
Qed.

Lemma checkMetaData_ignores_unknown_keys_witness :
  Sanity.checkMetaData (PRoot "m")
    (VObj [("extra_fields", VArr [VStr "x"]); ("edge_fields", VArr [VStr "type"])])
    (Sanity.PObj [("edge_fields", Sanity.PArr [Sanity.PStr "type"])]) []
  = Sanity.checkMetaData (PRoot "m")
      (VObj [("edge_fields", VArr [VStr "type"])])
      (Sanity.PObj [("edge_fields", Sanity.PArr [Sanity.PStr "type"])]) [].
Proof.
  apply checkMetaData_ignores_unknown_keys. repeat constructor.
Defined.

(** X4: a run of [Sanity.check] that returns leaves the console untouched
    when the descriptor matches the template; otherwise it has appended at
    least one warning followed by the two closing lines, and nothing else. *)
Theorem check_console_output (d : Val) (log log' : console) :
  Sanity.check d log = (Ok tt, log') ->
  (conforms (prop (prop d "snapshot") "meta") Sanity.metaDataProto = true /\ log' = log) \/
  (conforms (prop (prop d "snapshot") "meta") Sanity.metaDataProto = false /\
   exists ws, ws <> [] /\
     log' = log ++ ws ++ [error_format_changed; error_continuing]).
Proof.
  unfold Sanity.check. intros H.
  apply bind_Ok in H as (meta & log1 & Hshape & H).
  apply check_shape_Ok in Hshape as (-> & -> & _).
  apply bind_Ok in H as ([] & log2 & Hdrift & H).
  apply check_counts_Ok in H as [-> _].
  unfold Sanity.check_drift in Hdrift.
  apply bind_Ok in Hdrift as (ok & log1 & Hmeta & Hdrift).
  apply checkMetaData_Ok in Hmeta as (-> & ws & -> & Hws).
  destruct (conforms _ Sanity.metaDataProto).
  - left. apply ret_Ok in Hdrift as [_ ->]. rewrite (proj1 Hws eq_refl).
    by rewrite app_nil_r.
  - right. split; [reflexivity |].
    apply bind_Ok in Hdrift as ([] & log3 & He1 & He2).
    apply emit_Ok in He1 as ->. apply emit_Ok in He2 as ->.
    exists ws. split; [intros Hnil; by apply Hws in Hnil |].
    by rewrite <- !app_assoc.
Qed.

Lemma check_console_output_witness :
  exists ws, ws <> [] /\
    snd (Sanity.check doc_drift []) = ws ++ [error_format_changed; error_continuing].
Proof.
  destruct (Sanity.check doc_drift []) as [[[] | |] log'] eqn:E;
    try (exfalso; vm_compute in E; discriminate).
  destruct (check_console_output doc_drift [] log' E) as [[Hc _] | (_ & ws & Hws & ->)].
  - exfalso. vm_compute in Hc. discriminate.
  - by exists ws.
Defined.

(** ** The decoders on validated documents *)

Lemma at_index_lookup {A} (l : list A) (z : Z) :
  (0 <= z)%Z -> at_index l (Some z) = l !! Z.to_nat z.
Proof. intros H. unfold at_index. by rewrite (proj2 (Z.ltb_ge _ _)) by lia. Qed.

(** X5: in a returned snapshot every node record lies inside the node array:
    node [i] has its six leading fields read from the positions
    [i * nodeFieldCount .. + 5], none of them [undefined], whatever the number
    of node fields (6 or more), and its [detached] value is read from position
    [+ 6] exactly when the layout has a 7th field. *)
Theorem node_fields_read_at_stride
    (d : Val) (log : console) (s : SnapshotImpl) (log' : console) :
  parseSnapshot d log = (Ok s, log') ->
  exists raw, as_RawSnapshotData d = Some raw /\
    let nfc := length (node_fields (meta raw)) in
    (6 <= nfc)%nat /\
    length (nodes raw) = (length (s_nodes s) * nfc)%nat /\
    forall i node, s_nodes s !! i = Some node ->
      exists ty name id size count trace,
        nodes raw !! (i * nfc)%nat = Some ty /\
        nodes raw !! (i * nfc + 1)%nat = Some name /\
        nodes raw !! (i * nfc + 2)%nat = Some id /\
        nodes raw !! (i * nfc + 3)%nat = Some size /\
        nodes raw !! (i * nfc + 4)%nat = Some count /\
        nodes raw !! (i * nfc + 5)%nat = Some trace /\
        n_type node = at_index (node_types_0 (meta raw)) (Some ty) /\
        n_name node = at_index (strings raw) (Some name) /\
        n_id node = Some id /\ n_self_size node = Some size /\
        n_edge_count node = Some count /\ n_trace_node_id node = Some trace /\
        n_detached node
        = (if decide (7 <= nfc)%nat
           then Some (is_one (nodes raw !! (i * nfc + 6)%nat))
           else None) /\
        (s_hasDetachedness s = true <-> is_Some (n_detached node)).
Proof.
  intros H.
  apply parseSnapshot_decoded in H as (raw & Hraw & Hcheck & Hnodes & Hflag & _).
  exists raw. split; [exact Hraw |].
  destruct (validated_raw _ _ _ _ _ Hcheck Hraw) as (Hsix & _ & Hlen & Hpos & _).
  cbn [parseInfoFromSnapshot nodeFieldCount] in Hsix, Hlen.
  unfold hasDetachedness in Hflag. cbv zeta.
  remember (length (node_fields (meta raw))) as nfc eqn:Hnfc.
  assert (Hcount : length (s_nodes s) = Z.to_nat (node_count raw)).
  { by rewrite Hnodes, wired_length, parseNodes_length. }
  split; [lia |].
  split; [rewrite Hcount; apply Nat2Z.inj; rewrite Nat2Z.inj_mul, Z2Nat.id; lia |].
  intros i node Hi.
  assert (Hlt : (i < Z.to_nat (node_count raw))%nat).
  { apply lookup_lt_Some in Hi. lia. }
  rewrite Hnodes in Hi. apply wired_fields in Hi as (node0 & Hi & Hfields).
  apply parseNodes_lookup in Hi as [_ ->].
  assert (Hin : forall o, (o < 6)%nat -> is_Some (nodes raw !! (i * nfc + o)%nat)).
  { intros o Ho. apply lookup_lt_is_Some_2. nia. }
  destruct (Hin 0%nat) as [ty Hty]; [lia |]. rewrite Nat.add_0_r in Hty.
  destruct (Hin 1%nat) as [name Hname]; [lia |].
  destruct (Hin 2%nat) as [id Hid]; [lia |].
  destruct (Hin 3%nat) as [size Hsize]; [lia |].
  destruct (Hin 4%nat) as [count Hc]; [lia |].
  destruct (Hin 5%nat) as [trace Htr]; [lia |].
  exists ty, name, id, size, count, trace.
  unfold fields_of, parseNode in Hfields. cbn [n_type n_name n_id n_self_size
    n_edge_count n_trace_node_id n_detached parseInfoFromSnapshot nodeFieldCount] in Hfields.
  rewrite <- Hnfc in Hfields.
  injection Hfields as -> -> -> -> -> -> ->.
  assert (Hat0 : at_index (nodes raw) (Some (Z.of_nat i * Z.of_nat nfc)%Z)
                 = nodes raw !! (i * nfc)%nat).
  { rewrite at_index_lookup by nia. f_equal. lia. }
  assert (Hat : forall z o, z = Z.of_nat o ->
            at_index (nodes raw) (Some (Z.of_nat i * Z.of_nat nfc + z)%Z)
            = nodes raw !! (i * nfc + o)%nat).
  { intros z o ->. rewrite at_index_lookup by nia. f_equal. lia. }
  pose proof Hat0 as Hat0'. pose proof Hat as Hat'.
  unfold at_index in Hat0', Hat'.
  rewrite Hat0', (Hat' 1%Z 1%nat), (Hat' 2%Z 2%nat), (Hat' 3%Z 3%nat), (Hat' 4%Z 4%nat),
    (Hat' 5%Z 5%nat) by reflexivity.
  rewrite Hty, Hname, Hid, Hsize, Hc, Htr. cbn [mbind option_bind].
  repeat (split; [reflexivity |]).
  assert (Hdet : access (nodes raw) (Z.of_nat i * Z.of_nat nfc + 6)
                   (Z.of_nat i * Z.of_nat nfc) (Z.of_nat nfc) is_one
                 = if decide (7 <= nfc)%nat
                   then Some (is_one (nodes raw !! (i * nfc + 6)%nat)) else None).
  { unfold access. destruct (decide (7 <= nfc)%nat).
    - rewrite (proj2 (Z.ltb_lt _ _)) by lia. by rewrite (Hat 6%Z 6%nat).
    - by rewrite (proj2 (Z.ltb_ge _ _)) by lia. }
  rewrite Hdet. split; [reflexivity |].
  rewrite Hflag.
  destruct (decide (7 <= nfc)%nat).
  - split; [by eexists | intros _; apply Z.leb_le; lia].
  - split; [intros Hb; apply Z.leb_le in Hb; lia | intros [x Hx]; discriminate].
Qed.

Lemma node_fields_read_at_stride_witness :
  exists s,
    parseSnapshot doc_seven_fields [] = (Ok s, []) /\
    n_id <$> (s_nodes s !! 1%nat) = Some (Some 2%Z).
Proof.
  destruct (parseSnapshot doc_seven_fields []) as [[s | |] log'] eqn:E;
    try (exfalso; vm_compute in E; discriminate).
  assert (log' = []) as -> by (vm_compute in E; congruence).
  exists s. split; [reflexivity |].
  destruct (node_fields_read_at_stride doc_seven_fields [] s [] E) as (raw & Hraw & H).
  vm_compute in Hraw. injection Hraw as <-. cbv zeta in H.
  destruct H as (_ & _ & H).
  destruct (s_nodes s !! 1%nat) as [n1 |] eqn:E1;
    [| exfalso; vm_compute in E; injection E as <-; discriminate].
  destruct (H 1%nat n1 E1) as (ty & name & id & size & count & trace & _ & _ & Hid
                               & _ & _ & _ & _ & _ & Hnid & _).
  cbn in Hid. injection Hid as <-. cbn. by rewrite Hnid.
Defined.

(** X6: in a returned snapshot the name of an edge is the number stored in the
    second field of its record exactly when the edge type is "element" or
    "hidden"; otherwise the second field is below the length of the string
    table and the name is the string at that index, or [undefined] when the
    field is negative. The second field is never missing. *)
Theorem edge_names_by_type
    (d : Val) (log : console) (s : SnapshotImpl) (log' : console) :
  parseSnapshot d log = (Ok s, log') ->
  exists raw, as_RawSnapshotData d = Some raw /\
    forall j e, s_edges s !! j = Some e ->
      exists i, edges raw !! (3 * j + 1)%nat = Some i /\
        if bool_decide (e_type e = Some "element") || bool_decide (e_type e = Some "hidden")
        then e_name e = NameNum i
        else (i < Z.of_nat (length (strings raw)))%Z /\
             e_name e = (if (i <? 0)%Z then NameUndef
                         else match strings raw !! Z.to_nat i with
                              | Some str => NameStr str
                              | None => NameUndef
                              end) /\
             ((0 <= i)%Z -> exists str, e_name e = NameStr str).
Proof.
  intros H.
  apply parseSnapshot_decoded in H as (raw & Hraw & _ & _ & _ & _ & Hdec & _).
  exists raw. split; [exact Hraw |]. intros j e Hj.
  pose proof (decodes_in_range _ _ _ _ (Hdec j e Hj)) as Hrange.
  destruct (Hdec j e Hj) as (_ & Hname & _).
  destruct (lookup_lt_is_Some_2 (edges raw) (3 * j + 1)%nat) as [i Hi]; [lia |].
  exists i. split; [exact Hi |].
  rewrite at_index_lookup in Hname by lia.
  replace (Z.to_nat (3 * Z.of_nat j + 1)) with (3 * j + 1)%nat in Hname by lia.
  rewrite Hi in Hname. unfold name_or_index in Hname.
  destruct (bool_decide (e_type e = Some "element") || bool_decide (e_type e = Some "hidden")).
  - by injection Hname as <-.
  - destruct (Z.leb_spec (Z.of_nat (length (strings raw))) i) as [Hge | Hlt];
      [discriminate |].
    injection Hname as <-. split; [exact Hlt |]. unfold at_index.
    split; [by destruct (i <? 0)%Z |].
    intros Hpos. rewrite (proj2 (Z.ltb_ge _ _)) by lia.
    destruct (lookup_lt_is_Some_2 (strings raw) (Z.to_nat i)) as [str ->]; [lia |].
    by exists str.
Qed.

Lemma edge_names_by_type_witness :
  exists s,
    parseSnapshot doc_two_nodes [] = (Ok s, []) /\
    e_name <$> (s_edges s !! 0%nat) = Some (NameStr "x").
Proof.
  destruct (parseSnapshot doc_two_nodes []) as [[s | |] log'] eqn:E;
    try (exfalso; vm_compute in E; discriminate).
  assert (log' = []) as -> by (vm_compute in E; congruence).
  exists s. split; [reflexivity |].
  destruct (edge_names_by_type doc_two_nodes [] s [] E) as (raw & Hraw & H).
  vm_compute in Hraw. injection Hraw as <-.
  destruct (s_edges s !! 0%nat) as [e0 |] eqn:E0;
    [| exfalso; vm_compute in E; injection E as <-; discriminate].
  destruct (H 0%nat e0 E0) as (i & Hi & Hcase).
  cbn in Hi. injection Hi as <-.
  assert (Hty : e_type e0 = Some "property").
  { vm_compute in E. injection E as <-. vm_compute in E0. by injection E0 as <-. }
  rewrite Hty in Hcase. cbn in Hcase. destruct Hcase as (_ & Hname & _).
  cbn. by rewrite Hname.
Defined.

(** X7: in a returned snapshot the third field of edge record [j] is the
    position of the destination node times the number of node fields, and
    both ends of the edge are nodes of the snapshot: offsets into the node
    array and node positions convert into each other without remainder. *)
Theorem edge_destination_offsets
    (d : Val) (log : console) (s : SnapshotImpl) (log' : console) :
  parseSnapshot d log = (Ok s, log') ->
  exists raw, as_RawSnapshotData d = Some raw /\
    forall j e, s_edges s !! j = Some e ->
      edges raw !! (3 * j + 2)%nat
        = Some (Z.of_nat (e_to e) * Z.of_nat (length (node_fields (meta raw))))%Z /\
      (e_from e < length (s_nodes s))%nat /\ (e_to e < length (s_nodes s))%nat.
Proof.
  intros H.
  apply parseSnapshot_decoded in H as (raw & Hraw & _ & Hnodes & _ & Hrange & Hdec & _).
  exists raw. split; [exact Hraw |]. intros j e Hj.
  pose proof (decodes_in_range _ _ _ _ (Hdec j e Hj)) as Hin.
  destruct (Hdec j e Hj) as (_ & _ & Hq).
  pose proof (proj1 (Forall_lookup _ _) Hrange j e Hj) as [Hf Ht].
  rewrite Hnodes, wired_length. split; [| by split].
  rewrite at_index_lookup in Hq by lia.
  replace (Z.to_nat (3 * Z.of_nat j + 2)) with (3 * j + 2)%nat in Hq by lia.
  destruct (edges raw !! (3 * j + 2)%nat) as [x |]; [| discriminate]. f_equal.
  unfold quotient in Hq. cbn [parseInfoFromSnapshot nodeFieldCount] in Hq.
  destruct (Z.eqb_spec (Z.of_nat (length (node_fields (meta raw)))) 0) as [| Hnz];
    [discriminate |].
  destruct (Z.eqb_spec (x mod Z.of_nat (length (node_fields (meta raw)))) 0) as [Hmod |];
    [| discriminate].
  injection Hq as Hq. rewrite <- Hq.
  rewrite (Z.div_mod x (Z.of_nat (length (node_fields (meta raw))))) at 1 by exact Hnz.
  lia.
Qed.

Lemma edge_destination_offsets_witness :
  exists s,
    parseSnapshot doc_two_nodes [] = (Ok s, []) /\
    e_to <$> (s_edges s !! 0%nat) = Some 1%nat.
Proof.
  destruct (parseSnapshot doc_two_nodes []) as [[s | |] log'] eqn:E;
    try (exfalso; vm_compute in E; discriminate).
  assert (log' = []) as -> by (vm_compute in E; congruence).
  exists s. split; [reflexivity |].
  destruct (edge_destination_offsets doc_two_nodes [] s [] E) as (raw & Hraw & H).
  vm_compute in Hraw. injection Hraw as <-.
  destruct (s_edges s !! 0%nat) as [e0 |] eqn:E0;
    [| exfalso; vm_compute in E; injection E as <-; discriminate].
  destruct (H 0%nat e0 E0) as (Hto & _).
  cbn in Hto. injection Hto as Hto. cbn. f_equal. lia.
Defined.

Lemma positions_block (k a : nat) (l : list EdgeImpl) : forall c pos,
  map e_from l = replicate c a ->
  positions (from_is k) pos l = if decide (k = a) then seq pos c else [].
Proof.
  induction l as [| e l IH]; intros [| c] pos H; cbn in H; try discriminate.
  - by destruct (decide (k = a)).
  - injection H as He H. cbn. rewrite (IH c (S pos) H). unfold from_is. rewrite He.
    destruct (decide (k = a)) as [-> | Hne].
    + by rewrite Nat.eqb_refl.
    + by rewrite (proj2 (Nat.eqb_neq a k)) by done.
Qed.

Lemma positions_node_major nodes (k : nat) : forall m a (l : list EdgeImpl) pos,
  map e_from l = node_major nodes (seq a m) ->
  positions (from_is k) pos l
  = if decide (a <= k < a + m)%nat
    then seq (pos + length (node_major nodes (seq a (k - a))))
             (iterations_of ((nodes !! k) ≫= n_edge_count))
    else [].
Proof.
  induction m as [| m IH]; intros a l pos H.
  - cbn in H. destruct l; [| discriminate]. cbn. by destruct (decide _); [lia |].
  - cbn [seq] in H. unfold node_major in H. cbn [flat_map] in H. fold (node_major nodes) in H.
    apply map_eq_app in H as (l1 & l2 & -> & H1 & H2).
    rewrite positions_app, (positions_block k a l1 _ pos H1).
    apply (f_equal length) in H1 as Hlen. rewrite length_map, length_replicate in Hlen.
    rewrite (IH (S a) l2 (pos + length l1)%nat H2).
    destruct (decide (k = a)) as [-> | Hne].
    + rewrite Nat.sub_diag. cbn [seq node_major flat_map length].
      rewrite Nat.add_0_r.
      destruct (decide (S a <= a < S a + m)%nat); [lia |].
      destruct (decide (a <= a < a + S m)%nat); [by rewrite app_nil_r | lia].
    + cbn [app].
      destruct (decide (S a <= k < S a + m)%nat), (decide (a <= k < a + S m)%nat);
        try lia; [| reflexivity].
      f_equal. replace (k - a)%nat with (S (k - S a)) by lia.
      cbn [seq]. unfold node_major at 2. cbn [flat_map]. fold (node_major nodes).
      rewrite length_app, length_replicate. unfold node_major. lia.
Qed.

Lemma node_major_length_take prefix nodes : forall k,
  (k <= length nodes)%nat ->
  length (node_major (prefix ++ nodes) (seq (length prefix) k))
  = declared_iterations (take k nodes).
Proof.
  revert prefix. induction nodes as [| n nodes IH]; intros prefix [| k] Hk;
    cbn in Hk |- *; try reflexivity; [lia |].
  unfold node_major, declared_iterations in *. cbn.
  rewrite length_app, length_replicate.
  rewrite lookup_app_r, Nat.sub_diag by lia. cbn. f_equal.
  specialize (IH (prefix ++ [n]) k). rewrite length_app, <- app_assoc in IH. cbn in IH.
  rewrite Nat.add_1_r in IH. apply IH. lia.
Qed.

Lemma node_major_length_before nodes k :
  (k <= length nodes)%nat ->
  length (node_major nodes (seq 0 k)) = declared_iterations (take k nodes).
Proof. exact (node_major_length_take [] nodes k). Qed.

Lemma sum_list_with_take_imap {A B} (f : B -> nat) (f' : A -> nat) (l : list A) :
  forall (g : nat -> A -> B) k,
  (forall i x, f (g i x) = f' x) ->
  sum_list_with f (take k (imap g l)) = sum_list_with f' (take k l).
Proof.
  induction l as [| x l IH]; intros g [| k] Hg; cbn; try reflexivity.
  rewrite Hg. f_equal. apply IH. intros i y. apply Hg.
Qed.

(** X8: in a returned snapshot the outgoing list of node [k] is a block of
    consecutive edge positions: it starts at the number of edges of the nodes
    before [k] and has as many entries as the declared edge count of [k]
    allows, so the out-degree of every node is its declared count (none for a
    negative count). *)
Theorem out_edges_are_consecutive
    (d : Val) (log : console) (s : SnapshotImpl) (log' : console) :
  parseSnapshot d log = (Ok s, log') ->
  forall k n, s_nodes s !! k = Some n ->
    out_edges n = seq (declared_iterations (take k (s_nodes s)))
                      (iterations_of (n_edge_count n)) /\
    length (out_edges n) = iterations_of (n_edge_count n).
Proof.
  intros H k n Hk.
  apply parseSnapshot_decoded in H as (raw & _ & _ & Hnodes & _ & _ & _ & Hmajor).
  set (nodes0 := parseNodes raw (parseInfoFromSnapshot raw)) in *.
  assert (Hlt : (k < length nodes0)%nat).
  { apply lookup_lt_Some in Hk. by rewrite Hnodes, wired_length in Hk. }
  assert (Hout : out_edges n
                 = seq (declared_iterations (take k (s_nodes s)))
                       (iterations_of (n_edge_count n))).
  { rewrite Hnodes in Hk |- *.
    destruct (wired_lookup _ _ _ _ (parseNodes_fresh _ _) Hk) as [-> _].
    rewrite (positions_node_major nodes0 k _ 0 _ 0 Hmajor).
    destruct (decide (0 <= k < 0 + length nodes0)%nat); [| lia].
    rewrite Nat.sub_0_r, Nat.add_0_l.
    rewrite (node_major_length_before nodes0 k) by lia.
    unfold declared_iterations at 2, wired.
    rewrite (sum_list_with_take_imap _ (fun n => iterations_of (n_edge_count n)))
      by reflexivity.
    f_equal. rewrite <- (wired_edge_count nodes0 (s_edges s) k).
    change (imap (wired_node (s_edges s)) nodes0) with (wired nodes0 (s_edges s)) in Hk.
    by rewrite Hk. }
  split; [exact Hout |]. by rewrite Hout, length_seq.
Qed.

Lemma out_edges_are_consecutive_witness :
  exists s,
    parseSnapshot doc_negative_count [] = (Ok s, []) /\
    out_edges <$> (s_nodes s !! 1%nat) = Some [0%nat].
Proof.
  destruct (parseSnapshot doc_negative_count []) as [[s | |] log'] eqn:E;
    try (exfalso; vm_compute in E; discriminate).
  assert (log' = []) as -> by (vm_compute in E; congruence).
  exists s. split; [reflexivity |].
  destruct (s_nodes s !! 1%nat) as [n1 |] eqn:E1;
    [| exfalso; vm_compute in E; injection E as <-; discriminate].
  destruct (out_edges_are_consecutive doc_negative_count [] s [] E 1%nat n1 E1) as [Hout _].
  cbn. rewrite Hout. vm_compute in E. injection E as <-.
  vm_compute in E1. injection E1 as <-. reflexivity.
Defined.

(** ** The snapshot object *)

Lemma set_ids_lookup_Some key nodes : forall pos mapping k,
  set_ids pos nodes mapping !! key = Some k ->
  mapping !! key = Some k \/
  ((pos <= k)%nat /\ exists node, nodes !! (k - pos)%nat = Some node /\ n_id node = key).
Proof.
  induction nodes as [| n nodes IH]; intros pos mapping k H; cbn in H; [by left |].
  apply IH in H as [H | (Hle & node & Hnode & Hid)].
  - destruct (decide (n_id n = key)) as [<- | Hne].
    + rewrite lookup_insert_eq in H. injection H as <-. right. split; [lia |].
      exists n. by rewrite Nat.sub_diag.
    + rewrite lookup_insert_ne in H by done. by left.
  - right. split; [lia |]. exists node.
    replace (k - pos)%nat with (S (k - S pos)) by lia. by split.
Qed.

Lemma set_ids_lookup_None key nodes : forall pos mapping,
  set_ids pos nodes mapping !! key = None ->
  Forall (fun n => n_id n <> key) nodes /\ mapping !! key = None.
Proof.
  induction nodes as [| n nodes IH]; intros pos mapping H; cbn in H; [by split |].
  apply IH in H as [Hall H].
  destruct (decide (n_id n = key)) as [<- | Hne].
  - by rewrite lookup_insert_eq in H.
  - rewrite lookup_insert_ne in H by done. split; [by constructor | exact H].
Qed.

(** X9: [findNodeById] answers with a node only if that node carries the id,
    and answers [undefined] exactly when no node of the snapshot carries it. *)
Theorem findNodeById_sound_and_complete
    (nodes : list NodeImpl) (edges : list EdgeImpl) (flag : bool) (id : Z) :
  (forall k, findNodeById (new_SnapshotImpl nodes edges flag) id = Some k ->
     exists node, nodes !! k = Some node /\ n_id node = Some id) /\
  (findNodeById (new_SnapshotImpl nodes edges flag) id = None <->
   Forall (fun n => n_id n <> Some id) nodes).
Proof.
  unfold findNodeById, new_SnapshotImpl. cbn [idToNodeMapping]. split.
  - intros k H. apply set_ids_lookup_Some in H as [H | (_ & node & Hnode & Hid)].
    + by rewrite lookup_empty in H.
    + exists node. by rewrite Nat.sub_0_r in Hnode.
  - split.
    + intros H. by apply set_ids_lookup_None in H as [H _].
    + intros H. by rewrite set_ids_absent, lookup_empty.
Qed.

Lemma findNodeById_sound_and_complete_witness :
  findNodeById snapshot_shared_id 9 = None /\
  exists node, nodes_shared_id !! 1%nat = Some node /\ n_id node = Some 8%Z.
Proof.
  destruct (findNodeById_sound_and_complete nodes_shared_id [] false 9) as [_ Hnone].
  destruct (findNodeById_sound_and_complete nodes_shared_id [] false 8) as [Hsome _].
  split.
  - apply Hnone. repeat constructor; discriminate.
  - apply Hsome. reflexivity.
Defined.

Lemma find_node_first pred nodes : forall pos g,
  find_node pred pos nodes = Some g ->
  (pos <= g)%nat /\
  (exists node, nodes !! (g - pos)%nat = Some node /\ pred node = true) /\
  forall j node, (j < g - pos)%nat -> nodes !! j = Some node -> pred node = false.
Proof.
  induction nodes as [| n nodes IH]; intros pos g; cbn; [discriminate |].
  destruct (pred n) eqn:Hn.
  - intros H. injection H as <-. rewrite Nat.sub_diag.
    split; [lia |]. split; [by exists n | intros j node Hj; lia].
  - intros H. apply IH in H as (Hle & (node & Hnode & Hp) & Hfirst).
    split; [lia |]. replace (g - pos)%nat with (S (g - S pos)) by lia.
    split; [by exists node |].
    intros [| j] node' Hj Hl; cbn in Hl; [by injection Hl as <- |].
    apply (Hfirst j); [lia | exact Hl].
Qed.

(** X10: the first access to [global] returns the first node, in decode order,
    whose name is "global / "; it stores it in the cache and changes nothing
    else of the snapshot. *)
Theorem global_is_first_named_node (this : SnapshotImpl) (g : nat) (this' : SnapshotImpl) :
  _global this = None ->
  global this = (Ok g, this') ->
  (exists node, s_nodes this !! g = Some node /\ n_name node = Some "global / ") /\
  (forall j node, (j < g)%nat -> s_nodes this !! j = Some node ->
     n_name node <> Some "global / ") /\
  this' = set_global this (Some g).
Proof.
  intros Hcache. unfold global. rewrite Hcache. cbn [set_global _global].
  destruct (find_node is_global 0 (s_nodes this)) as [g0 |] eqn:Hfind; [| discriminate].
  intros H. injection H as <- <-.
  apply find_node_first in Hfind as (_ & (node & Hnode & Hp) & Hfirst).
  rewrite Nat.sub_0_r in *. unfold is_global in *.
  split; [exists node; split; [exact Hnode | exact (bool_decide_eq_true_1 _ Hp)] |].
  split; [| reflexivity].
  intros j node' Hj Hl. specialize (Hfirst j node' Hj Hl).
  exact (bool_decide_eq_false_1 _ Hfirst).
Qed.

Lemma global_is_first_named_node_witness :
  exists node, s_nodes snapshot_with_global !! 1%nat = Some node /\
               n_name node = Some "global / ".
Proof.
  apply (global_is_first_named_node snapshot_with_global 1%nat
           (snd (global snapshot_with_global))); reflexivity.
Defined.

(** X11: the first access to [modules] returns the positions of exactly the
    nodes named "Module" of type "object", in decode order and without
    repetition, and stores that list in the cache. *)
Theorem modules_are_the_module_objects
    (this : SnapshotImpl) (m : list nat) (this' : SnapshotImpl) :
  _modules this = None ->
  modules this = (m, this') ->
  (forall j, j ∈ m <->
     exists node, s_nodes this !! j = Some node /\
       n_name node = Some "Module" /\ n_type node = Some "object") /\
  StronglySorted lt m /\ NoDup m /\
  this' = set_modules this (Some m).
Proof.
  intros Hcache. unfold modules. rewrite Hcache. intros H. injection H as <- <-.
  split; [| split; [apply positions_sorted |
            split; [apply sorted_lt_NoDup, positions_sorted | reflexivity]]].
  intros j. rewrite elem_of_positions, Nat.sub_0_r. unfold is_module. split.
  - intros (_ & node & Hnode & Hp). apply andb_true_iff in Hp as [Hn Ht].
    exists node. split; [exact Hnode |].
    split; [exact (bool_decide_eq_true_1 _ Hn) | exact (bool_decide_eq_true_1 _ Ht)].
  - intros (node & Hnode & Hn & Ht). split; [lia |]. exists node.
    split; [exact Hnode |]. by rewrite !bool_decide_eq_true_2.
Qed.

Lemma modules_are_the_module_objects_witness :
  0%nat ∈ fst (modules snapshot_with_global).
Proof.
  destruct (modules_are_the_module_objects snapshot_with_global
              (fst (modules snapshot_with_global)) (snd (modules snapshot_with_global))
              eq_refl eq_refl) as [Hiff _].
  apply Hiff. eexists. split; [reflexivity | split; reflexivity].
Defined.

(** ** parseSnapshot *)

(** X12: [parseSnapshot] rejects what is no document before it validates
    anything: a value that is neither an object nor a string with the error
    "Illigal snapshot data!", [null] with the [TypeError] of reading
    [null.nodes], and an array with the failed assertion on [data.nodes]; the
    console is not written to. *)
Theorem parseSnapshot_rejects_non_documents (arg1 : Val) (log : console) :
  (typeof arg1 <> "object" -> typeof arg1 <> "string" ->
   parseSnapshot arg1 log = (Throw (Error (text "Illigal snapshot data!")), log)) /\
  (arg1 = VNull -> parseSnapshot arg1 log = (Throw TypeError, log)) /\
  (isArray arg1 = true ->
   parseSnapshot arg1 log
   = (Throw (Error ("${path} is not an array, but is '${typeof arr}'",
                    [VStr "data.nodes"; VStr "undefined"])), log)).
Proof.
  split; [| split].
  - intros Hobj Hstr. destruct arg1; cbn in Hobj, Hstr; try congruence; reflexivity.
  - intros ->. reflexivity.
  - intros Harr. destruct arg1; try discriminate. reflexivity.
Qed.

Lemma parseSnapshot_rejects_non_documents_witness :
  parseSnapshot (VNum 5) [] = (Throw (Error (text "Illigal snapshot data!")), []) /\
  parseSnapshot (VArr []) []
  = (Throw (Error ("${path} is not an array, but is '${typeof arr}'",
                   [VStr "data.nodes"; VStr "undefined"])), []).
Proof.
  split.
  - apply (parseSnapshot_rejects_non_documents (VNum 5) []); discriminate.
  - apply (parseSnapshot_rejects_non_documents (VArr []) []). reflexivity.
Defined.



(** ** The earlier revision *)

Lemma latch_step_refl w : latch_step w w.
Proof. by left. Qed.

Lemma latch_step_trans w1 w2 w3 : latch_step w1 w2 -> latch_step w2 w3 -> latch_step w1 w3.
Proof.
  intros [-> | [Hw ->]] H23; [exact H23 |].
  destruct H23 as [-> | [Habs _]]; [right; by split | discriminate Habs].
Qed.

Lemma latched_read {A} (m : outcome A) :
  (forall desc, m <> Throw (Error desc)) -> latched (Legacy.read m).
Proof. intros H w. split; [apply latch_step_refl | exact H]. Qed.

Lemma latched_get x k : latched (Legacy.read (get x k)).
Proof. apply latched_read. intros desc. by destruct x. Qed.

Lemma latched_decided {A} (m : option A) : latched (Legacy.decided m).
Proof. intros w. split; [apply latch_step_refl | by destruct m]. Qed.

Lemma latched_check ok : latched (Legacy.check ok).
Proof.
  intros w. unfold Legacy.check.
  destruct (negb (Legacy.truthy ok)); cbn [andb];
    [destruct (Legacy.warnedAboutChangedHeapFormat w) eqn:Hw |]; cbn;
    (split; [| discriminate]); try apply latch_step_refl.
  right. by split.
Qed.

Lemma latched_andThen {A B} (m : Legacy.L A) (k : A -> Legacy.L B) :
  latched m -> (forall a, latched (k a)) -> latched (Legacy.andThen m k).
Proof.
  intros Hm Hk w. unfold Legacy.andThen. specialize (Hm w).
  destruct (m w) as [[a | e |] w1]; cbn in Hm; destruct Hm as [Hstep Herr].
  - destruct (Hk a w1) as [Hstep' Herr']. split; [| exact Herr'].
    exact (latch_step_trans _ _ _ Hstep Hstep').
  - split; [exact Hstep |]. intros desc Heq. cbn in Heq.
    injection Heq as ->. by apply (Herr desc).
  - split; [exact Hstep | discriminate].
Qed.

Lemma latched_counts_match c len arr_len : latched (Legacy.counts_match c len arr_len).
Proof.
  apply latched_andThen; [apply latched_decided | intros; apply latched_decided].
Qed.

Lemma latched_sanityCheck stringify data : latched (Legacy.sanityCheck stringify data).
Proof.
  unfold Legacy.sanityCheck.
  repeat (apply latched_andThen;
          [first [apply latched_check | apply latched_get | apply latched_decided
                 | apply latched_counts_match] | intros ?]).
  apply latched_check.
Qed.

(** X14: the earlier [sanityCheck] warns once. Whatever the document and
    whatever [JSON.stringify] answers, a call either leaves the flag and the
    console untouched or, the flag being clear, sets it and writes the single
    line "Heapsnapshot format changed! ..."; with the flag set it changes
    nothing; and it never raises an [Error] of its own. *)
Theorem legacy_sanityCheck_warns_once
    (JSON_stringify : Val -> option string) (data : Val) (w : Legacy.World) :
  let result := Legacy.sanityCheck JSON_stringify data w in
  (snd result = w \/
   (Legacy.warnedAboutChangedHeapFormat w = false /\
    snd result = {| Legacy.warnedAboutChangedHeapFormat := true;
                    Legacy.output := Legacy.output w ++ [error_format_changed] |})) /\
  (Legacy.warnedAboutChangedHeapFormat w = true -> snd result = w) /\
  (forall desc, fst result <> Throw (Error desc)).
Proof.
  cbv zeta. destruct (latched_sanityCheck JSON_stringify data w) as [Hstep Herr].
  split; [exact Hstep |]. split; [| exact Herr].
  intros Hw. destruct Hstep as [H | [Habs _]]; [exact H | congruence].
Qed.

Lemma legacy_parseNodes_loop data :
  length (node_fields (meta data)) = 6%nat ->
  node_types_0 (meta data) = Legacy.node_type_list ->
  forall iterations nodeIndex result,
    Legacy.parseNodes_loop data iterations nodeIndex result
    = parseNodes_loop data 6 iterations nodeIndex result.
Proof.
  intros Hlen Htypes. induction iterations as [| n IH]; intros nodeIndex result; [done |].
  cbn [Legacy.parseNodes_loop parseNodes_loop]. rewrite IH. do 2 f_equal.
  unfold Legacy.parseNode, parseNode, access. rewrite Htypes. cbv zeta.
  rewrite (proj2 (Z.ltb_ge _ _)) by lia. reflexivity.
Qed.

Lemma legacy_wire_edge data from_node w :
  edge_types_0 (meta data) = Legacy.edge_type_list ->
  Legacy.wire_edge data from_node w = wire_edge data 6 from_node w.
Proof. intros Htypes. unfold Legacy.wire_edge, wire_edge. by rewrite Htypes. Qed.

Lemma legacy_wire_node data from_node :
  edge_types_0 (meta data) = Legacy.edge_type_list ->
  forall iterations w,
    Legacy.wire_node data from_node iterations w = wire_node data 6 from_node iterations w.
Proof.
  intros Htypes. induction iterations as [| n IH]; intros w; [done |].
  cbn [Legacy.wire_node wire_node]. rewrite legacy_wire_edge by done.
  destruct (wire_edge data 6 from_node w); cbn [obind]; [apply IH | done | done].
Qed.

Lemma legacy_wire_nodes data :
  edge_types_0 (meta data) = Legacy.edge_type_list ->
  forall from_nodes w,
    Legacy.wire_nodes data from_nodes w = wire_nodes data 6 from_nodes w.
Proof.
  intros Htypes. induction from_nodes as [| k rest IH]; intros w; [done |].
  cbn [Legacy.wire_nodes wire_nodes]. cbv zeta. rewrite legacy_wire_node by done.
  destruct (wire_node data 6 k _ w); cbn [obind]; [apply IH | done | done].
Qed.

(** X15: on a document of the fixed layout of the earlier revision (six node
    fields, the built-in node and edge type lists) the current decoders
    compute what the earlier decoders compute: the same nodes, and from any
    nodes the same edges, wiring and failures. *)
Theorem decoders_extend_legacy (data : RawSnapshotData) :
  length (node_fields (meta data)) = 6%nat ->
  node_types_0 (meta data) = Legacy.node_type_list ->
  edge_types_0 (meta data) = Legacy.edge_type_list ->
  parseNodes data (parseInfoFromSnapshot data) = Legacy.parseNodes data /\
  forall nodes,
    parseAndWireEdges data nodes (parseInfoFromSnapshot data)
    = Legacy.parseAndWireEdges data nodes.
Proof.
  intros Hlen Hnt Het.
  unfold parseNodes, Legacy.parseNodes, parseAndWireEdges, Legacy.parseAndWireEdges,
    parseInfoFromSnapshot. cbn [nodeFieldCount]. rewrite Hlen. split.
  - symmetry. by apply legacy_parseNodes_loop.
  - intros nodes. symmetry. by apply legacy_wire_nodes.
Qed.

Lemma decoders_extend_legacy_witness :
  parseNodes raw_negative_name (parseInfoFromSnapshot raw_negative_name)
  = Legacy.parseNodes raw_negative_name.
Proof. apply (decoders_extend_legacy raw_negative_name); reflexivity. Defined.
